(** * Book_Launch: the early-access form and its ingestion endpoint

    A shallow embedding of the two pieces of the repository that carry
    decision logic:

    - the React component [EarlyAccessBookLaunch] (its validators
      [validateEmail], [validatePhone] and the async [handleSubmit]);
    - the route handler [POST] of [app/api/subscribe/route.ts].

    JavaScript strings are sequences of UTF-16 code units, so a string is a
    [list N].  Async functions are programs of a small resumption monad
    ([Task]): every effect is a question put to the environment, and an
    [await] is a question whose answer is a settled promise. *)

From Stdlib Require Import List NArith ZArith Bool Arith Lia String Ascii DecimalString.
Import ListNotations.

Set Implicit Arguments.

(** ** Strings as code-unit sequences *)

Definition str := list N.

Definition lit (s : string) : str :=
  List.map N_of_ascii (list_ascii_of_string s).
Arguments lit : simpl never.

Fixpoint str_eqb (a b : str) : bool :=
  match a, b with
  | [], [] => true
  | x :: a', y :: b' => N.eqb x y && str_eqb a' b'
  | _, _ => false
  end.

Definition is_empty (s : str) : bool :=
  match s with [] => true | _ :: _ => false end.

(** ECMAScript [WhiteSpace] and [LineTerminator] code points: the set that
    both [String.prototype.trim] and the regular-expression class [\s]
    use. *)
Definition is_white_space (c : N) : bool :=
  ((c =? 9) || (c =? 10) || (c =? 11) || (c =? 12) || (c =? 13)
   || (c =? 32) || (c =? 160) || (c =? 5760)
   || ((8192 <=? c) && (c <=? 8202))
   || (c =? 8232) || (c =? 8233) || (c =? 8239) || (c =? 8287)
   || (c =? 12288) || (c =? 65279))%N.

Fixpoint trimStart (s : str) : str :=
  match s with
  | [] => []
  | c :: s' => if is_white_space c then trimStart s' else s
  end.

Definition trimEnd (s : str) : str := rev (trimStart (rev s)).

Definition trim (s : str) : str := trimEnd (trimStart s).

(** A text that is empty or whose first code unit is not white space. *)
Definition starts_clean (s : str) : Prop :=
  match s with
  | [] => True
  | c :: _ => is_white_space c = false
  end.

(** ** Regular expressions

    Only what the two patterns of the component need: character classes,
    sequencing, alternation (produced by derivatives) and iteration.  A
    pattern written [^r$] without flags is a match of the whole input. *)

Module Re.

Inductive regex : Type :=
| Void : regex
| Eps : regex
| Class : (N -> bool) -> regex
| Seq : regex -> regex -> regex
| Alt : regex -> regex -> regex
| Star : regex -> regex.

(** [r+] *)
Definition Plus (r : regex) : regex := Seq r (Star r).

Fixpoint nullable (r : regex) : bool :=
  match r with
  | Void => false
  | Eps => true
  | Class _ => false
  | Seq a b => nullable a && nullable b
  | Alt a b => nullable a || nullable b
  | Star _ => true
  end.

Fixpoint deriv (c : N) (r : regex) : regex :=
  match r with
  | Void => Void
  | Eps => Void
  | Class p => if p c then Eps else Void
  | Seq a b =>
      if nullable a then Alt (Seq (deriv c a) b) (deriv c b)
      else Seq (deriv c a) b
  | Alt a b => Alt (deriv c a) (deriv c b)
  | Star a => Seq (deriv c a) (Star a)
  end.

(** [/^r$/.test(s)] *)
Fixpoint test (r : regex) (s : str) : bool :=
  match s with
  | [] => nullable r
  | c :: s' => test (deriv c r) s'
  end.

(** The language of a pattern. *)
Inductive Matches : regex -> str -> Prop :=
| MEps : Matches Eps []
| MClass : forall (p : N -> bool) c, p c = true -> Matches (Class p) [c]
| MSeq : forall a b s t, Matches a s -> Matches b t -> Matches (Seq a b) (s ++ t)
| MAltL : forall a b s, Matches a s -> Matches (Alt a b) s
| MAltR : forall a b s, Matches b s -> Matches (Alt a b) s
| MStarNil : forall a, Matches (Star a) []
| MStarCons : forall a c s t,
    Matches a (c :: s) -> Matches (Star a) t -> Matches (Star a) (c :: s ++ t).

End Re.

(** ** The validators of the component *)

Definition char_at : N := 64.      (* '@' *)
Definition char_dot : N := 46.     (* '.' *)

(** [[^\s@]] *)
Definition not_space_not_at (c : N) : bool :=
  negb (is_white_space c || (c =? char_at)%N).

(** [/^[^\s@]+@[^\s@]+\.[^\s@]+$/] *)
Definition email_pattern : Re.regex :=
  Re.Seq (Re.Plus (Re.Class not_space_not_at))
    (Re.Seq (Re.Class (N.eqb char_at))
       (Re.Seq (Re.Plus (Re.Class not_space_not_at))
          (Re.Seq (Re.Class (N.eqb char_dot))
             (Re.Plus (Re.Class not_space_not_at))))).

Definition validateEmail (e : str) : bool := Re.test email_pattern e.

(** [[0-9]] and its complement [[^0-9]] *)
Definition is_digit (c : N) : bool := ((48 <=? c) && (c <=? 57))%N.
Definition not_digit (c : N) : bool := negb (is_digit c).

(** [s.replace(/[cls]/g, by_)] for a one-character class: every code unit
    of the class is replaced, the others are kept. *)
Fixpoint replace_class (cls : N -> bool) (by_ : str) (s : str) : str :=
  match s with
  | [] => []
  | c :: s' =>
      (if cls c then by_ else [c]) ++ replace_class cls by_ s'
  end.

Definition validatePhone (p : str) : bool :=
  let digits := List.length (replace_class not_digit [] p) in
  (7 <=? digits)%nat && (digits <=? 15)%nat.

(** The wording of the specification, to be compared with the code. *)

(** "count characters that are digits 0-9" *)
Fixpoint digit_count (p : str) : nat :=
  match p with
  | [] => 0
  | c :: p' => if is_digit c then S (digit_count p') else digit_count p'
  end.

(** "one-or-more non-space non-@ characters" *)
Definition local_part (s : str) : Prop :=
  s <> [] /\ Forall (fun c => is_white_space c = false /\ c <> char_at) s.

(** "<part>@<part>.<part>" *)
Definition email_shape (s : str) : Prop :=
  exists a b c,
    s = a ++ char_at :: b ++ char_dot :: c
    /\ local_part a /\ local_part b /\ local_part c.

(** ** JavaScript values, exceptions and promises *)

(** Anything that carries a [message]: an [Error] instance thrown by the
    platform or by [new Error(..)], or the error descriptor the persistence
    collaborator reports. *)
Record JsError : Type := { message : str }.

(** A settled promise. *)
Inductive Settled (A : Type) : Type :=
| Fulfilled : A -> Settled A
| Rejected : JsError -> Settled A.
Arguments Fulfilled {A} _.
Arguments Rejected {A} _.

(** ** Async functions as resumptions

    [Ask q k] puts the question [q] to the environment and continues with
    [k] on its answer; [Throw] is an exception on its way out. *)

Section Tasks.

Variable Q : Type.
Variable Ans : Q -> Type.

Inductive Task (A : Type) : Type :=
| Ret : A -> Task A
| Throw : JsError -> Task A
| Ask : forall q : Q, (Ans q -> Task A) -> Task A.
Arguments Ret {A} _.
Arguments Throw {A} _.
Arguments Ask {A} q _.

Fixpoint bind {A B : Type} (t : Task A) (f : A -> Task B) : Task B :=
  match t with
  | Ret a => f a
  | Throw e => Throw e
  | Ask q k => Ask q (fun x => bind (k x) f)
  end.

(** [try { t } catch (err) { h err }] *)
Fixpoint try_catch {A : Type} (t : Task A) (h : JsError -> Task A) : Task A :=
  match t with
  | Ret a => Ret a
  | Throw e => h e
  | Ask q k => Ask q (fun x => try_catch (k x) h)
  end.

(** [await p] for a promise that has settled *)
Definition await {A : Type} (p : Settled A) : Task A :=
  match p with
  | Fulfilled a => Ret a
  | Rejected e => Throw e
  end.

(** a fallible pure step, such as a string conversion *)
Definition lift {A : Type} (r : JsError + A) : Task A :=
  match r with
  | inl e => Throw e
  | inr a => Ret a
  end.

End Tasks.

Arguments Ret {Q Ans A} _.
Arguments Throw {Q Ans A} _.
Arguments Ask {Q Ans A} q _.
Arguments bind {Q Ans A B} t f.
Arguments try_catch {Q Ans A} t h.
Arguments await {Q Ans A} p.
Arguments lift {Q Ans A} r.

Declare Scope task_scope.
Delimit Scope task_scope with task.
Notation "x <- t ;; u" := (bind t (fun x => u))
  (at level 61, t at next level, right associativity) : task_scope.
Notation "t ;; u" := (bind t (fun _ => u))
  (at level 61, right associativity) : task_scope.
Notation "'TRY' t 'CATCH' err => h" := (try_catch t (fun err => h))
  (at level 62, err name, t at level 61, h at level 61) : task_scope.

(** An instance of the platform for concrete runs: the numbers are the safe
    integers (magnitude at most 2^53 - 1), which a double holds exactly and
    [ToString] prints in plain decimal; the text of the conversion error is
    the one V8 gives. *)
Record safe_int : Type := {
  int_value : Z;
  int_is_safe : (Z.abs int_value <=? 9007199254740991)%Z = true
}.
Definition int_truthy (n : safe_int) : bool := negb (Z.eqb (int_value n) 0).
Definition int_text (n : safe_int) : str :=
  lit (NilZero.string_of_int (Z.to_int (int_value n))).
Definition v8_type_error : str := lit "Cannot convert object to primitive value".

Section Program.

(** The numbers of the platform (IEEE doubles) enter only through
    [ToBoolean] and [ToString]; they are kept abstract.  The text of the
    [TypeError] raised by a failed conversion is left to the engine. *)
Variable Num : Type.
Variable num_truthy : Num -> bool.
Variable num_text : Num -> str.
Variable type_error_text : str.

(** Values: what [JSON.parse] can produce, and [undefined].  The fields of
    an object are in source order; a later binding of a key shadows an
    earlier one, as [JSON.parse] has it. *)
#[warnings="-register-all"] Inductive JsValue : Type :=
| JUndefined : JsValue
| JNull : JsValue
| JBool : bool -> JsValue
| JNumber : Num -> JsValue
| JString : str -> JsValue
| JArray : list JsValue -> JsValue
| JObject : list (str * JsValue) -> JsValue.

(** [!!v] *)
Definition to_boolean (v : JsValue) : bool :=
  match v with
  | JUndefined | JNull => false
  | JBool b => b
  | JNumber n => num_truthy n
  | JString s => negb (is_empty s)
  | JArray _ | JObject _ => true
  end.

Fixpoint own_property (fields : list (str * JsValue)) (key : str) : option JsValue :=
  match fields with
  | [] => None
  | (k, v) :: rest =>
      match own_property rest key with
      | Some w => Some w
      | None => if str_eqb k key then Some v else None
      end
  end.

(** [v.key] for the keys this program reads ([name], [email], [phone],
    [error]), none of which a built-in prototype defines: an own property
    of an object, [undefined] otherwise.  It is applied to values that
    are not nullish, or through [?.]. *)
Definition member (v : JsValue) (key : str) : JsValue :=
  match v with
  | JObject fields =>
      match own_property fields key with
      | Some w => w
      | None => JUndefined
      end
  | _ => JUndefined
  end.

(** [v?.key] *)
Definition optional_member (v : JsValue) (key : str) : JsValue :=
  match v with
  | JUndefined | JNull => JUndefined
  | _ => member v key
  end.

(** [a ?? b] *)
Definition nullish_or (a b : JsValue) : JsValue :=
  match a with
  | JUndefined | JNull => b
  | _ => a
  end.

(** [a || b] *)
Definition js_or (a b : JsValue) : JsValue :=
  if to_boolean a then a else b.

(** [a || b] on strings *)
Definition str_or (a b : str) : str :=
  if is_empty a then b else a.

(** "the exception's message, or a generic fallback if it has none": the
    message of [e] when it is not empty, the text [fallback] otherwise. *)
Definition message_or (fallback : str) (e : JsError) : str :=
  match message e with
  | [] => fallback
  | c :: m => c :: m
  end.

(** [String(v)].  An array is joined with commas, a nullish element
    giving the empty text.  An object answers through
    [Object.prototype.toString] unless an own [toString] property (which
    is never callable in parsed JSON) shadows it, in which case the
    conversion throws a [TypeError]. *)
Fixpoint to_string (v : JsValue) : JsError + str :=
  match v with
  | JUndefined => inr (lit "undefined")
  | JNull => inr (lit "null")
  | JBool true => inr (lit "true")
  | JBool false => inr (lit "false")
  | JNumber n => inr (num_text n)
  | JString s => inr s
  | JArray items =>
      (fix join (l : list JsValue) : JsError + str :=
         match l with
         | [] => inr []
         | x :: rest =>
             let first :=
               match x with
               | JUndefined | JNull => inr []
               | _ => to_string x
               end in
             match first, rest with
             | inl e, _ => inl e
             | inr sx, [] => inr sx
             | inr sx, _ :: _ =>
                 match join rest with
                 | inl e => inl e
                 | inr sr => inr (sx ++ lit "," ++ sr)
                 end
             end
         end) items
  | JObject fields =>
      match own_property fields (lit "toString") with
      | Some _ => inl {| message := type_error_text |}
      | None => inr (lit "[object Object]")
      end
  end.

(** [new Error(v)] for a [v] that is not [undefined] *)
Definition new_Error (v : JsValue) : JsError + JsError :=
  match to_string v with
  | inl e => inl e
  | inr s => inr {| message := s |}
  end.

(** ** The form controller (component [EarlyAccessBookLaunch]) *)

Inductive Status : Type := StIdle | StSending | StSuccess | StError.

Definition status_eqb (a b : Status) : bool :=
  match a, b with
  | StIdle, StIdle | StSending, StSending
  | StSuccess, StSuccess | StError, StError => true
  | _, _ => false
  end.

(** The five [useState] cells. *)
Record FormState : Type := {
  name : str;
  email : str;
  phone : str;
  status : Status;
  error : option str
}.

(** The text [JSON.stringify(v)]; the server's [request.json()] reads the
    value back, so the text is represented by the value it encodes. *)
Record JsonText : Type := JSON_stringify { encoded : JsValue }.

Record RequestInit : Type := {
  method : str;
  headers : list (str * str);
  body : JsonText
}.

(** A [Response]: the [ok] flag and what the promise of [res.json()]
    settles with. *)
Record Response : Type := {
  ok : bool;
  json : Settled JsValue
}.

(** The effects of the handler: the state setters and [fetch]. *)
Inductive formQ : Type :=
| SetError : option str -> formQ
| SetStatus : Status -> formQ
| SetName : str -> formQ
| SetEmail : str -> formQ
| SetPhone : str -> formQ
| Fetch : str -> RequestInit -> formQ.

Definition formAns (q : formQ) : Type :=
  match q with
  | Fetch _ _ => Settled Response
  | _ => unit
  end.

Definition FormTask := Task formAns.

Definition setError (e : option str) : FormTask unit := Ask (SetError e) Ret.
Definition setStatus (s : Status) : FormTask unit := Ask (SetStatus s) Ret.
Definition setName (v : str) : FormTask unit := Ask (SetName v) Ret.
Definition setEmail (v : str) : FormTask unit := Ask (SetEmail v) Ret.
Definition setPhone (v : str) : FormTask unit := Ask (SetPhone v) Ret.

(** [await fetch(url, init)] *)
Definition fetch (url : str) (init : RequestInit) : FormTask Response :=
  Ask (Fetch url init) await.

Local Open Scope task_scope.

(** [handleSubmit], in the render whose state is [st].  The handler reads
    [name], [email] and [phone] from its closure, that is from [st];
    [ev?.preventDefault()] touches neither the state nor the network and is
    left out.  The await of [res.json()] is merged with the one of [fetch]:
    the handler does nothing between the two. *)
Definition handleSubmit (st : FormState) : FormTask unit :=
  setError None ;;
  if is_empty (trim (name st)) then
    setError (Some (lit "Please enter your name."))
  else if negb (validateEmail (email st)) then
    setError (Some (lit "Please enter a valid email."))
  else if negb (validatePhone (phone st)) then
    setError (Some (lit "Please enter a valid phone number."))
  else
    setStatus StSending ;;
    let payload :=
      JObject [ (lit "name", JString (trim (name st)));
                (lit "email", JString (trim (email st)));
                (lit "phone", JString (trim (phone st))) ] in
    TRY
      res <- fetch (lit "/api/subscribe")
               {| method := lit "POST";
                  headers := [ (lit "Content-Type", lit "application/json") ];
                  body := JSON_stringify payload |} ;;
      json <- await (json res) ;;
      (if negb (ok res) then
         err <- lift (new_Error
                        (js_or (optional_member json (lit "error"))
                               (JString (lit "Server error")))) ;;
         Throw err
       else Ret tt) ;;
      setStatus StSuccess ;;
      setName [] ;;
      setEmail [] ;;
      setPhone []
    CATCH err =>
      setStatus StError ;;
      setError (Some (str_or (message err) (lit "Something went wrong."))).

(** What a setter does to the state. *)
Definition apply_setter (q : formQ) (st : FormState) : FormState :=
  match q with
  | SetError e =>
      {| name := name st; email := email st; phone := phone st;
         status := status st; error := e |}
  | SetStatus s =>
      {| name := name st; email := email st; phone := phone st;
         status := s; error := error st |}
  | SetName v =>
      {| name := v; email := email st; phone := phone st;
         status := status st; error := error st |}
  | SetEmail v =>
      {| name := name st; email := v; phone := phone st;
         status := status st; error := error st |}
  | SetPhone v =>
      {| name := name st; email := email st; phone := v;
         status := status st; error := error st |}
  | Fetch _ _ => st
  end.

(** Where a run of the handler stands: the state, and the effects issued
    so far, oldest first. *)
Inductive Progress : Type :=
| Finished : FormState -> list formQ -> Progress
| Uncaught : FormState -> list formQ -> JsError -> Progress
| Suspended : FormState -> list formQ ->
              (Settled Response -> FormTask unit) -> Progress.

(** Run the handler up to its first [await fetch]. *)
Fixpoint advance (t : FormTask unit) (st : FormState) (log : list formQ) : Progress :=
  match t with
  | Ret _ => Finished st log
  | Throw e => Uncaught st log e
  | Ask q k =>
      match q as q0 return (formAns q0 -> FormTask unit) -> Progress with
      | Fetch url init => fun k' => Suspended st (log ++ [Fetch url init]) k'
      | SetError e => fun k' => advance (k' tt) (apply_setter (SetError e) st) (log ++ [SetError e])
      | SetStatus s => fun k' => advance (k' tt) (apply_setter (SetStatus s) st) (log ++ [SetStatus s])
      | SetName v => fun k' => advance (k' tt) (apply_setter (SetName v) st) (log ++ [SetName v])
      | SetEmail v => fun k' => advance (k' tt) (apply_setter (SetEmail v) st) (log ++ [SetEmail v])
      | SetPhone v => fun k' => advance (k' tt) (apply_setter (SetPhone v) st) (log ++ [SetPhone v])
      end k
  end.

(** Run the handler to its end against a network that answers each
    request with [net]. *)
Fixpoint run (net : str -> RequestInit -> Settled Response)
         (t : FormTask unit) (st : FormState) (log : list formQ) : Progress :=
  match t with
  | Ret _ => Finished st log
  | Throw e => Uncaught st log e
  | Ask q k =>
      match q as q0 return (formAns q0 -> FormTask unit) -> Progress with
      | Fetch url init => fun k' => run net (k' (net url init)) st (log ++ [Fetch url init])
      | SetError e => fun k' => run net (k' tt) (apply_setter (SetError e) st) (log ++ [SetError e])
      | SetStatus s => fun k' => run net (k' tt) (apply_setter (SetStatus s) st) (log ++ [SetStatus s])
      | SetName v => fun k' => run net (k' tt) (apply_setter (SetName v) st) (log ++ [SetName v])
      | SetEmail v => fun k' => run net (k' tt) (apply_setter (SetEmail v) st) (log ++ [SetEmail v])
      | SetPhone v => fun k' => run net (k' tt) (apply_setter (SetPhone v) st) (log ++ [SetPhone v])
      end k
  end.

Definition is_fetch (q : formQ) : bool :=
  match q with Fetch _ _ => true | _ => false end.

(** The network calls among the effects. *)
Definition network_calls (log : list formQ) : list formQ := filter is_fetch log.

Definition final_state (p : Progress) : FormState :=
  match p with
  | Finished st _ | Uncaught st _ _ | Suspended st _ _ => st
  end.

Definition effects (p : Progress) : list formQ :=
  match p with
  | Finished _ log | Uncaught _ log _ | Suspended _ log _ => log
  end.

(** [submit()] as the specification names it: one call of the handler in
    the current render, from no effects, against the network [net]. *)
Definition submit (net : str -> RequestInit -> Settled Response) (st : FormState) : Progress :=
  run net (handleSubmit st) st [].

(** *** The rendered form

    The handler is a local closure of the component; its only caller is
    the form ([<form onSubmit={handleSubmit}>]), and the form's submit
    button carries [disabled={status === "sending"}].  A browser does not
    submit a form through a disabled submit button, neither on a click nor
    on implicit submission.

    A browser may also keep a gesture on an enabled button to itself: the
    email input has [type="email"] and the form no [noValidate], so a text
    the browser does not take for an address stops the submission before
    the handler is called.  The page then does not move, as if the gesture
    had not been made.  [step] lets every gesture on an enabled button
    through: the sequences of events below cover everything the real page
    can do and more, so what holds after every sequence holds on the real
    page, while a statement that a gesture does send would not carry
    over. *)

Definition submit_disabled (st : FormState) : bool :=
  status_eqb (status st) StSending.

(** The page: the current state, the handlers parked at their [await],
    and the requests that went out. *)
Record Page : Type := {
  view : FormState;
  parked : list (Settled Response -> FormTask unit);
  wire : list formQ
}.

Definition settle_into (c : Page) (p : Progress) : Page :=
  match p with
  | Finished st log | Uncaught st log _ =>
      {| view := st; parked := parked c; wire := wire c ++ network_calls log |}
  | Suspended st log k =>
      {| view := st; parked := parked c ++ [k]; wire := wire c ++ network_calls log |}
  end.

Inductive Field : Type := FieldName | FieldEmail | FieldPhone.

(** The [onChange] of an input: [setName(e.target.value)] and its like. *)
Definition updateField (f : Field) (v : str) (st : FormState) : FormState :=
  match f with
  | FieldName => apply_setter (SetName v) st
  | FieldEmail => apply_setter (SetEmail v) st
  | FieldPhone => apply_setter (SetPhone v) st
  end.

Inductive Event : Type :=
| SubmitGesture : Event                     (* click on the button, or Enter *)
| Change : Field -> str -> Event            (* typing into an input *)
| NetworkAnswer : Settled Response -> Event (* the oldest request settles *).

Definition step (c : Page) (ev : Event) : Page :=
  match ev with
  | SubmitGesture =>
      if submit_disabled (view c) then c
      else settle_into c (advance (handleSubmit (view c)) (view c) [])
  | Change f v =>
      {| view := updateField f v (view c); parked := parked c; wire := wire c |}
  | NetworkAnswer answer =>
      match parked c with
      | [] => c
      | k :: rest =>
          settle_into {| view := view c; parked := rest; wire := wire c |}
                      (advance (k answer) (view c) [])
      end
  end.

(** ** The ingestion endpoint ([app/api/subscribe/route.ts]) *)

(** What the collaborator's insert resolves to: [{ data, error }]. *)
Record InsertResult : Type := {
  data : JsValue;
  insert_error : option JsError
}.

Record NextResponse : Type := NextResponse_json {
  response_body : JsValue;
  response_status : nat
}.

Inductive serverQ : Type :=
| RequestJson : serverQ
| Insert : str -> list JsValue -> serverQ
| ConsoleError : str -> JsError -> serverQ.

Definition serverAns (q : serverQ) : Type :=
  match q with
  | RequestJson => Settled JsValue
  | Insert _ _ => Settled InsertResult
  | ConsoleError _ _ => unit
  end.

Definition ServerTask := Task serverAns.

(** [await request.json()] *)
Definition request_json : ServerTask JsValue := Ask RequestJson await.

(** [await supabaseAdmin.from(table).insert(records)] *)
Definition supabase_insert (table : str) (records : list JsValue) : ServerTask InsertResult :=
  Ask (Insert table records) await.

Definition console_error (label : str) (detail : JsError) : ServerTask unit :=
  Ask (ConsoleError label detail) Ret.

Definition POST : ServerTask NextResponse :=
  TRY
    body <- request_json ;;
    let src := nullish_or body (JObject []) in
    let name := member src (lit "name") in
    let email := member src (lit "email") in
    let phone := member src (lit "phone") in
    if negb (to_boolean name) || negb (to_boolean email) then
      Ret (NextResponse_json
             (JObject [ (lit "error", JString (lit "Missing name or email")) ]) 400)
    else
      res <- supabase_insert (lit "early_access")
               [ JObject [ (lit "name", name); (lit "email", email);
                           (lit "phone", phone) ] ] ;;
      match insert_error res with
      | Some error =>
          console_error (lit "Supabase insert error:") error ;;
          Ret (NextResponse_json
                 (JObject [ (lit "error", JString (message error)) ]) 500)
      | None =>
          Ret (NextResponse_json
                 (JObject [ (lit "ok", JBool true); (lit "data", data res) ]) 200)
      end
  CATCH err =>
    console_error (lit "Subscribe route error:") err ;;
    Ret (NextResponse_json
           (JObject [ (lit "error",
                       JString (str_or (message err) (lit "Unknown error"))) ]) 500).

(** The surroundings of one request: what the body parses to, and the
    persistence collaborator. *)
Record Backend : Type := {
  parsed_body : Settled JsValue;
  collaborator : str -> list JsValue -> Settled InsertResult
}.

(** How a call of the handler ends. *)
Inductive Completion (A : Type) : Type :=
| Returned : A -> Completion A
| Escaped : JsError -> Completion A.
Arguments Returned {A} _.
Arguments Escaped {A} _.

Fixpoint serve {A : Type} (env : Backend) (t : ServerTask A) (log : list serverQ)
  : Completion A * list serverQ :=
  match t with
  | Ret a => (Returned a, log)
  | Throw e => (Escaped e, log)
  | Ask q k =>
      match q as q0 return (serverAns q0 -> ServerTask A) -> Completion A * list serverQ with
      | RequestJson => fun k' => serve env (k' (parsed_body env)) (log ++ [RequestJson])
      | Insert table records =>
          fun k' => serve env (k' (collaborator env table records))
                      (log ++ [Insert table records])
      | ConsoleError label detail =>
          fun k' => serve env (k' tt) (log ++ [ConsoleError label detail])
      end k
  end.

(** One request handled from an empty log. *)
Definition handle (env : Backend) : Completion NextResponse * list serverQ :=
  serve env POST [].

Definition is_insert (q : serverQ) : bool :=
  match q with Insert _ _ => true | _ => false end.

(** *** Notions of the specification, for the statements below *)

(** "Runs validation in fixed order - name non-empty, email shape, phone
    digit-count range - and stops at the first failure": the message of
    the first validation that fails, if any. *)
Definition first_failure (st : FormState) : option str :=
  if is_empty (trim (name st)) then Some (lit "Please enter your name.")
  else if negb (validateEmail (email st)) then Some (lit "Please enter a valid email.")
  else if negb (validatePhone (phone st)) then Some (lit "Please enter a valid phone number.")
  else None.

(** "a POST request with the trimmed payload as JSON" *)
Definition subscribe_url : str := lit "/api/subscribe".

Definition subscribe_init (st : FormState) : RequestInit :=
  {| method := lit "POST";
     headers := [ (lit "Content-Type", lit "application/json") ];
     body := JSON_stringify
               (JObject [ (lit "name", JString (trim (name st)));
                          (lit "email", JString (trim (email st)));
                          (lit "phone", JString (trim (phone st))) ]) |}.

Definition subscribe_request (st : FormState) : formQ :=
  Fetch subscribe_url (subscribe_init st).

(** What the network answers to the request of [st]. *)
Definition answer_to (net : str -> RequestInit -> Settled Response) (st : FormState)
  : Settled Response :=
  net subscribe_url (subscribe_init st).

(** "the exception's message or a generic fallback" *)
Definition exception_message (e : JsError) : str :=
  str_or (message e) (lit "Something went wrong.").

(** The fields are the ones of [st]. *)
Definition retained (st st' : FormState) : Prop :=
  name st' = name st /\ email st' = email st /\ phone st' = phone st.

(** The exception that line 65 throws for a response that is not [ok]
    and whose body parsed to [j]. *)
Definition server_error (j : JsValue) : JsError :=
  match new_Error (js_or (optional_member j (lit "error"))
                         (JString (lit "Server error"))) with
  | inl e => e
  | inr e => e
  end.

(** The exception that reaches the [catch] block, if any. *)
Definition raised (ans : Settled Response) : option JsError :=
  match ans with
  | Rejected e => Some e
  | Fulfilled res =>
      match json res with
      | Rejected e => Some e
      | Fulfilled j => if ok res then None else Some (server_error j)
      end
  end.

Definition after_answer (st : FormState) (ans : Settled Response) : FormState :=
  match raised ans with
  | None =>
      {| name := []; email := []; phone := []; status := StSuccess; error := None |}
  | Some e =>
      {| name := name st; email := email st; phone := phone st;
         status := StError; error := Some (exception_message e) |}
  end.

Definition effects_after (ans : Settled Response) : list formQ :=
  match raised ans with
  | None => [SetStatus StSuccess; SetName []; SetEmail []; SetPhone []]
  | Some e => [SetStatus StError; SetError (Some (exception_message e))]
  end.

(** *** The endpoint *)

(** The field [key] of a request body; [undefined] when the body is
    nullish or has no such field. *)
Definition body_field (body : JsValue) (key : str) : JsValue :=
  optional_member body key.

(** The record handed to the collaborator: [{ name, email, phone }]. *)
Definition inserted_record (body : JsValue) : JsValue :=
  JObject [ (lit "name", body_field body (lit "name"));
            (lit "email", body_field body (lit "email"));
            (lit "phone", body_field body (lit "phone")) ].

(** "if [name] or [email] is falsy" *)
Definition missing_name_or_email (body : JsValue) : bool :=
  negb (to_boolean (body_field body (lit "name")))
  || negb (to_boolean (body_field body (lit "email"))).

Definition error_response (text : str) (code : nat) : NextResponse :=
  NextResponse_json (JObject [ (lit "error", JString text) ]) code.

(** What the handler does, case by case. *)
Definition outcome_of (env : Backend) : Completion NextResponse * list serverQ :=
  match parsed_body env with
  | Rejected e =>
      (Returned (error_response (str_or (message e) (lit "Unknown error")) 500),
       [RequestJson; ConsoleError (lit "Subscribe route error:") e])
  | Fulfilled body =>
      if missing_name_or_email body then
        (Returned (error_response (lit "Missing name or email") 400), [RequestJson])
      else
        let call := Insert (lit "early_access") [inserted_record body] in
        match collaborator env (lit "early_access") [inserted_record body] with
        | Rejected e =>
            (Returned (error_response (str_or (message e) (lit "Unknown error")) 500),
             [RequestJson; call; ConsoleError (lit "Subscribe route error:") e])
        | Fulfilled res =>
            match insert_error res with
            | Some err =>
                (Returned (error_response (message err) 500),
                 [RequestJson; call; ConsoleError (lit "Supabase insert error:") err])
            | None =>
                (Returned (NextResponse_json
                             (JObject [ (lit "ok", JBool true);
                                        (lit "data", data res) ]) 200),
                 [RequestJson; call])
            end
        end
  end.

(** *** What the component renders

    The part of the JSX that depends on the state: the three inputs
    ([value={name}] ...), the error line ([{error && <div>{error}</div>}]:
    nothing for [null] and for the empty text), the submit button
    ([disabled={status === "sending"}], its label) and the note shown after
    a success ([{status === "success" && ...}]). *)

Record FormView : Type := {
  name_input : str;
  email_input : str;
  phone_input : str;
  error_line : option str;
  button_disabled : bool;
  button_label : str;
  success_note : bool
}.

Definition render (st : FormState) : FormView :=
  {| name_input := name st;
     email_input := email st;
     phone_input := phone st;
     error_line :=
       match error st with
       | Some (c :: m) => Some (c :: m)
       | _ => None
       end;
     button_disabled := status_eqb (status st) StSending;
     button_label :=
       if status_eqb (status st) StSending then lit "Joining..."
       else lit "Join Early Access";
     success_note := status_eqb (status st) StSuccess |}.

(** The state of the first render: the arguments of the five [useState]. *)
Definition initial_state : FormState :=
  {| name := []; email := []; phone := []; status := StIdle; error := None |}.

Definition initial_page : Page :=
  {| view := initial_state; parked := []; wire := [] |}.

(** The page after a sequence of events, oldest first. *)
Definition run_events (c : Page) (evs : list Event) : Page :=
  fold_left step evs c.

Definition is_submit_gesture (ev : Event) : bool :=
  match ev with SubmitGesture => true | _ => false end.

(** The state a parked handler leaves when it is answered [ans] in the
    state [st]: the branch after [await], or the [catch] block. *)
Definition resumed (st : FormState) (ans : Settled Response) : FormState :=
  match raised ans with
  | None =>
      {| name := []; email := []; phone := []; status := StSuccess;
         error := error st |}
  | Some e =>
      {| name := name st; email := email st; phone := phone st;
         status := StError; error := Some (exception_message e) |}
  end.

(** A parked handler that, once answered, runs the rest of [handleSubmit]
    to its end on the state of that moment. *)
Definition resumes (k : Settled Response -> FormTask unit) : Prop :=
  forall ans st,
    advance (k ans) st [] = Finished (resumed st ans) (effects_after ans).

(** A request that a form in a valid state sends. *)
Definition validated_request (q : formQ) : Prop :=
  exists st, first_failure st = None /\ q = subscribe_request st.

(** Nothing in flight and the form not sending, or one handler in flight
    and the form sending with its error cleared; only validated requests on
    the wire. *)
Definition page_invariant (c : Page) : Prop :=
  ((parked c = [] /\ status (view c) <> StSending)
   \/ (exists k, parked c = [k] /\ resumes k
                 /\ status (view c) = StSending /\ error (view c) = None))
  /\ Forall validated_request (wire c).

(** The state with its three fields trimmed. *)
Definition trimmed (st : FormState) : FormState :=
  {| name := trim (name st); email := trim (email st); phone := trim (phone st);
     status := status st; error := error st |}.

Definition name_message : str := lit "Please enter your name.".

(** *** The page and the endpoint together *)

(** [Response.ok]: the status is in the range 200-299. *)
Definition status_ok (code : nat) : bool :=
  (200 <=? code)%nat && (code <=? 299)%nat.

(** The page receives the response [r] of the handler as [res]: [res.ok]
    follows the status, the body parses, and its [error] field reads as the
    handler wrote it. *)
Definition delivered (r : NextResponse) (res : Response) : Prop :=
  ok res = status_ok (response_status r)
  /\ exists j, json res = Fulfilled j
              /\ optional_member j (lit "error") = member (response_body r) (lit "error").

(** The backend of a request sent by the form in state [st]: the handler
    reads back the value the form encoded. *)
Definition backend_for (st : FormState)
           (collab : str -> list JsValue -> Settled InsertResult) : Backend :=
  {| parsed_body := Fulfilled (encoded (body (subscribe_init st)));
     collaborator := collab |}.

Definition logs_console_error (q : serverQ) : bool :=
  match q with ConsoleError _ _ => true | _ => false end.

(** *** Sample inputs *)

Definition sample_form : FormState :=
  {| name := lit "  Ada Lovelace ";
     email := lit "ada@example.com";
     phone := lit "+91 98765 43210";
     status := StIdle;
     error := Some (lit "Please enter a valid email.") |}.

Definition blank_name_form : FormState :=
  {| name := lit "   ";
     email := lit "not an email";
     phone := lit "12";
     status := StError;
     error := Some (lit "Server error") |}.

(** The form of [sample_form] in a render where a submission is already
    in flight. *)
Definition sending_form : FormState :=
  {| name := lit "Ada"; email := lit "ada@example.com";
     phone := lit "1234567"; status := StSending; error := None |}.

(** A server that accepted the submission. *)
Definition net_accepts (_ : str) (_ : RequestInit) : Settled Response :=
  Fulfilled {| ok := true;
               json := Fulfilled (JObject [ (lit "ok", JBool true);
                                            (lit "data", JNull) ]) |}.

(** A server that answers 500 with a message. *)
Definition net_refuses (_ : str) (_ : RequestInit) : Settled Response :=
  Fulfilled {| ok := false;
               json := Fulfilled (JObject [ (lit "error",
                                             JString (lit "duplicate key")) ]) |}.

(** A request that fails with an exception that carries no message. *)
Definition net_down (_ : str) (_ : RequestInit) : Settled Response :=
  Rejected {| message := [] |}.

(** A gateway that answers 200 with an HTML page. *)
Definition net_html (_ : str) (_ : RequestInit) : Settled Response :=
  Fulfilled {| ok := true;
               json := Rejected {| message := lit "Unexpected token < in JSON" |} |}.

(** A collaborator that stores the row and answers as the supabase-js
    client (version 2, the one whose option layout [lib/supabaseAdmin.ts]
    uses) does for the call of the handler: an insert without [.select()]
    asks for no representation, so [data] is [null] and [error] is
    [null]. *)
Definition minimal_insert (_ : str) (_ : list JsValue) : Settled InsertResult :=
  Fulfilled {| data := JNull; insert_error := None |}.

(** A collaborator whose table refuses the row. *)
Definition failing_insert (_ : str) (_ : list JsValue) : Settled InsertResult :=
  Fulfilled {| data := JNull;
               insert_error := Some {| message := lit "permission denied" |} |}.

Definition full_body : JsValue :=
  JObject [ (lit "name", JString (lit "A"));
            (lit "email", JString (lit "a@b.com"));
            (lit "phone", JString (lit "123")) ].

Definition body_without_email : JsValue :=
  JObject [ (lit "name", JString (lit "A")) ].

(** ** Properties of the form controller *)

Lemma first_failure_None (st : FormState) :
  first_failure st = None ->
  is_empty (trim (name st)) = false
  /\ validateEmail (email st) = true
  /\ validatePhone (phone st) = true.
Proof.
  unfold first_failure.
  destruct (is_empty (trim (name st))); [discriminate | ].
  destruct (validateEmail (email st)); [ | discriminate].
  destruct (validatePhone (phone st)); [ | discriminate].
  auto.
Qed.

Lemma submit_valid net (st : FormState) :
  first_failure st = None ->
  submit net st =
    Finished (after_answer st (answer_to net st))
             ([SetError None; SetStatus StSending; subscribe_request st]
                ++ effects_after (answer_to net st)).
Proof.
  intro H. apply first_failure_None in H as (Hn & He & Hp).
  unfold submit, handleSubmit, after_answer, effects_after, answer_to.
  rewrite Hn, He, Hp. cbn.
  destruct (net _ _) as [res | e]; cbn; [ | reflexivity].
  destruct (json res) as [j | e]; cbn; [ | reflexivity].
  destruct (ok res); cbn; [reflexivity | ].
  unfold server_error.
  destruct (new_Error _) as [e | e]; reflexivity.
Qed.

Lemma submit_invalid net (st : FormState) (msg : str) :
  first_failure st = Some msg ->
  submit net st =
    Finished {| name := name st; email := email st; phone := phone st;
                status := status st; error := Some msg |}
             [SetError None; SetError (Some msg)].
Proof.
  unfold first_failure, submit, handleSubmit.
  destruct (is_empty (trim (name st))).
  - intro H; injection H as <-. reflexivity.
  - destruct (validateEmail (email st)); simpl.
    + destruct (validatePhone (phone st)); simpl.
      * discriminate.
      * intro H; injection H as <-. reflexivity.
    + intro H; injection H as <-. reflexivity.
Qed.

Lemma server_error_string (j : JsValue) (s : str) :
  optional_member j (lit "error") = JString s -> s <> [] ->
  exception_message (server_error j) = s.
Proof.
  intros E Hs. unfold server_error, new_Error, js_or. rewrite E.
  destruct s as [ | c s']; [congruence | reflexivity].
Qed.

Lemma server_error_absent (j : JsValue) :
  to_boolean (optional_member j (lit "error")) = false ->
  exception_message (server_error j) = lit "Server error".
Proof.
  intro E. unfold server_error, new_Error, js_or. rewrite E. reflexivity.
Qed.

(** C1.  For every form state, [submit] first clears the prior error:
    [setError(null)] is its first effect.  When a validation fails - the
    name is empty after trimming, else the email does not pass, else the
    phone does not pass, in this order - the run stops there: its effects
    are exactly the clearing and the setting of that field's message, the
    state is the one before with [error] set to that message ([status]
    and the three fields as they were), and no network call is issued,
    whatever the network would have answered. *)
Theorem submit_stops_at_first_failure net (st : FormState) :
  (exists rest, effects (submit net st) = SetError None :: rest)
  /\ (forall msg, first_failure st = Some msg ->
       submit net st =
         Finished {| name := name st; email := email st; phone := phone st;
                     status := status st; error := Some msg |}
                  [SetError None; SetError (Some msg)]
       /\ network_calls (effects (submit net st)) = []).
Proof.
  split.
  - destruct (first_failure st) as [msg | ] eqn:E.
    + rewrite (submit_invalid net st E). simpl. eauto.
    + rewrite (submit_valid net st E). simpl. eauto.
  - intros msg E. rewrite (submit_invalid net st E). split; reflexivity.
Qed.

(** C8.  For every form state whose three validations pass, [submit]
    sets [status] to sending and reaches its [await] having issued one
    request: a POST to [/api/subscribe] with the JSON content type whose
    body is the JSON text of [{name, email, phone}], each field trimmed.
    Run to its end against any network, it has issued exactly that one
    network call. *)
Theorem submit_sends_one_trimmed_post net (st : FormState) :
  first_failure st = None ->
  (exists k,
      advance (handleSubmit st) st [] =
        Suspended {| name := name st; email := email st; phone := phone st;
                     status := StSending; error := None |}
                  [SetError None; SetStatus StSending; subscribe_request st] k)
  /\ network_calls (effects (submit net st)) = [subscribe_request st].
Proof.
  intro H. split.
  - apply first_failure_None in H as (Hn & He & Hp).
    unfold handleSubmit. rewrite Hn, He, Hp. cbn. eexists. reflexivity.
  - rewrite (submit_valid net st H). simpl.
    unfold effects_after. destruct (raised _); reflexivity.
Qed.

Lemma str_or_message (fallback : str) (e : JsError) :
  str_or (message e) fallback = message_or fallback e.
Proof. unfold str_or, message_or. destruct (message e); reflexivity. Qed.

Lemma exception_message_spec (e : JsError) :
  exception_message e = message_or (lit "Something went wrong.") e.
Proof. apply str_or_message. Qed.

(** C4.  After the network phase of a [submit] whose validations passed:
    on a success response (the response is [ok] and its body is JSON)
    [status] is success and the three fields are empty; on a response
    that is not [ok], or when the request itself fails, [status] is error
    and the three fields are the ones before.  The message shown is then
    the server's [error] text when the body carries a non-empty one, the
    generic "Server error" when it carries none, and, when the request or
    the reading of the body fails, the exception's message if it is not
    empty and the generic "Something went wrong." if it is. *)
Theorem submit_network_phase net (st : FormState) :
  first_failure st = None ->
  let st' := final_state (submit net st) in
  match answer_to net st with
  | Fulfilled res =>
      match json res, ok res with
      | Fulfilled j, true =>
          status st' = StSuccess
          /\ name st' = [] /\ email st' = [] /\ phone st' = []
      | Fulfilled j, false =>
          status st' = StError /\ retained st st'
          /\ error st'
             = Some (message_or (lit "Something went wrong.") (server_error j))
          /\ (forall s, optional_member j (lit "error") = JString s -> s <> [] ->
               error st' = Some s)
          /\ (to_boolean (optional_member j (lit "error")) = false ->
               error st' = Some (lit "Server error"))
      | Rejected e, _ =>
          status st' = StError /\ retained st st'
          /\ error st' = Some (message_or (lit "Something went wrong.") e)
      end
  | Rejected e =>
      status st' = StError /\ retained st st'
      /\ error st' = Some (message_or (lit "Something went wrong.") e)
  end.
Proof.
  intros H st'. subst st'. rewrite (submit_valid net st H).
  unfold after_answer, raised, retained.
  destruct (answer_to net st) as [res | e]; simpl;
    [ | rewrite exception_message_spec; auto].
  destruct (json res) as [j | e]; simpl.
  - destruct (ok res); simpl; [auto | ].
    repeat split.
    + now rewrite exception_message_spec.
    + intros s E Hs. now rewrite (server_error_string j E Hs).
    + intro E. now rewrite (server_error_absent j E).
  - rewrite exception_message_spec. destruct (ok res); auto.
Qed.

(** C10.  The body is read as JSON before [ok] is looked at: for every
    response whose body is not JSON, whatever its [ok] flag - an HTTP 200
    included - a [submit] whose validations passed ends with [status]
    error and the parse exception's message (the generic fallback if that
    message is empty); and it ends with [status] success only if the
    response is [ok] and its body parsed. *)
Theorem submit_parses_before_checking_ok net (st : FormState) :
  first_failure st = None ->
  let st' := final_state (submit net st) in
  (forall res e,
      answer_to net st = Fulfilled res -> json res = Rejected e ->
      status st' = StError /\ error st' = Some (exception_message e))
  /\ (status st' = StSuccess ->
      exists res j,
        answer_to net st = Fulfilled res /\ ok res = true /\ json res = Fulfilled j).
Proof.
  intros H st'. subst st'. rewrite (submit_valid net st H).
  unfold after_answer, raised. split.
  - intros res e -> Hj. rewrite Hj. simpl. auto.
  - destruct (answer_to net st) as [res | e]; simpl; [ | discriminate].
    destruct (json res) as [j | e] eqn:Hj; simpl; [ | discriminate].
    destruct (ok res) eqn:Hok; simpl; [ | discriminate].
    intros _. exists res, j. auto.
Qed.

(** The handler starts a request in whatever [status] it is called,
    [sending] included. *)
Lemma handleSubmit_has_no_status_guard (st : FormState) :
  first_failure st = None ->
  exists st' k,
    advance (handleSubmit st) st [] =
      Suspended st' [SetError None; SetStatus StSending; subscribe_request st] k.
Proof.
  intro H. apply first_failure_None in H as (Hn & He & Hp).
  unfold handleSubmit. rewrite Hn, He, Hp. cbn. eauto.
Qed.



(** ** Properties of the endpoint *)

Lemma destructured_field (body : JsValue) (key : str) :
  member (nullish_or body (JObject [])) key = body_field body key.
Proof. destruct body; reflexivity. Qed.

Lemma handle_outcome (env : Backend) : handle env = outcome_of env.
Proof.
  unfold handle, outcome_of, POST, missing_name_or_email, inserted_record.
  cbn. destruct (parsed_body env) as [body | e]; cbn; [ | reflexivity].
  rewrite !destructured_field.
  destruct (negb (to_boolean (body_field body (lit "name")))
            || negb (to_boolean (body_field body (lit "email")))); cbn;
    [reflexivity | ].
  destruct (collaborator env _ _) as [res | e]; cbn; [ | reflexivity].
  destruct (insert_error res) as [err | ]; reflexivity.
Qed.

Lemma missing_name_or_email_false (body : JsValue) :
  to_boolean (body_field body (lit "name")) = true ->
  to_boolean (body_field body (lit "email")) = true ->
  missing_name_or_email body = false.
Proof. unfold missing_name_or_email. now intros -> ->. Qed.

(** C5.  For every request body in which [name] or [email] is falsy the
    handler answers 400 with [{error: "Missing name or email"}] and the
    collaborator's insert is not invoked; the empty string, [null] and
    [undefined] are falsy; and [phone] is not required: a body whose
    [name] and [email] are truthy is never answered 400 and reaches the
    insert, whatever its [phone] is. *)
Theorem POST_rejects_missing_name_or_email :
  (forall env body,
      parsed_body env = Fulfilled body ->
      to_boolean (body_field body (lit "name")) = false
      \/ to_boolean (body_field body (lit "email")) = false ->
      handle env =
        (Returned (NextResponse_json
                     (JObject [ (lit "error", JString (lit "Missing name or email")) ])
                     400),
         [RequestJson])
      /\ filter is_insert (snd (handle env)) = [])
  /\ (to_boolean (JString []) = false /\ to_boolean JNull = false
      /\ to_boolean JUndefined = false)
  /\ (forall env body,
         parsed_body env = Fulfilled body ->
         to_boolean (body_field body (lit "name")) = true ->
         to_boolean (body_field body (lit "email")) = true ->
         exists resp log,
           handle env = (Returned resp, log)
           /\ response_status resp <> 400
           /\ In (Insert (lit "early_access") [inserted_record body]) log).
Proof.
  split; [ | split; [auto | ] ].
  - intros env body Hb Hmiss. rewrite handle_outcome. unfold outcome_of.
    rewrite Hb.
    assert (E : missing_name_or_email body = true).
    { unfold missing_name_or_email. destruct Hmiss as [-> | ->]; simpl;
        auto using orb_true_r. }
    rewrite E. split; reflexivity.
  - intros env body Hb Hn He. rewrite handle_outcome. unfold outcome_of.
    rewrite Hb, (missing_name_or_email_false body Hn He).
    destruct (collaborator env _ _) as [res | e].
    + destruct (insert_error res) as [err | ]; do 2 eexists;
        (split; [reflexivity | split; [simpl; discriminate | simpl; auto] ]).
    + do 2 eexists. split; [reflexivity | split; [simpl; discriminate | simpl; auto] ].
Qed.

(** C6 (as amended).  For every request whose [name] and [email] are
    truthy and whose insert the collaborator reports without error, the
    handler inserts the one record [{name, email, phone}] into
    [early_access] and answers 200 with [{ok: true, data}], where [data]
    is what the insert resolved as its data, handed on as it is. *)
Theorem POST_success_passes_data_through env body res :
  parsed_body env = Fulfilled body ->
  to_boolean (body_field body (lit "name")) = true ->
  to_boolean (body_field body (lit "email")) = true ->
  collaborator env (lit "early_access") [inserted_record body] = Fulfilled res ->
  insert_error res = None ->
  handle env =
    (Returned (NextResponse_json
                 (JObject [ (lit "ok", JBool true); (lit "data", data res) ]) 200),
     [RequestJson; Insert (lit "early_access") [inserted_record body]]).
Proof.
  intros Hb Hn He Hc Herr.
  rewrite handle_outcome. unfold outcome_of.
  now rewrite Hb, (missing_name_or_email_false body Hn He), Hc, Herr.
Qed.

(** C7.  Every call of the handler ends with a response: no exception
    escapes it.  If the insert reports an error, the error is logged and
    the answer is 500 with [{error: <the collaborator's message>}]; if
    reading the body or the insert throws, the exception is logged and
    the answer is 500 with the exception's message if it is not empty
    and with "Unknown error" if it is. *)
Theorem POST_handles_every_failure :
  (forall env, exists resp log, handle env = (Returned resp, log))
  /\ (forall env body res err,
         parsed_body env = Fulfilled body ->
         missing_name_or_email body = false ->
         collaborator env (lit "early_access") [inserted_record body] = Fulfilled res ->
         insert_error res = Some err ->
         handle env =
           (Returned (NextResponse_json
                        (JObject [ (lit "error", JString (message err)) ]) 500),
            [RequestJson; Insert (lit "early_access") [inserted_record body];
             ConsoleError (lit "Supabase insert error:") err]))
  /\ (forall env e,
         parsed_body env = Rejected e ->
         handle env =
           (Returned (NextResponse_json
                        (JObject [ (lit "error",
                                    JString (message_or (lit "Unknown error") e)) ])
                        500),
            [RequestJson; ConsoleError (lit "Subscribe route error:") e]))
  /\ (forall env body e,
         parsed_body env = Fulfilled body ->
         missing_name_or_email body = false ->
         collaborator env (lit "early_access") [inserted_record body] = Rejected e ->
         handle env =
           (Returned (NextResponse_json
                        (JObject [ (lit "error",
                                    JString (message_or (lit "Unknown error") e)) ])
                        500),
            [RequestJson; Insert (lit "early_access") [inserted_record body];
             ConsoleError (lit "Subscribe route error:") e])).
Proof.
  repeat split.
  - intro env. rewrite handle_outcome. unfold outcome_of.
    destruct (parsed_body env) as [body | e]; [ | eauto].
    destruct (missing_name_or_email body); [eauto | ].
    destruct (collaborator env _ _) as [res | e]; [ | eauto].
    destruct (insert_error res); eauto.
  - intros env body res err Hb Hm Hc He. rewrite handle_outcome.
    unfold outcome_of. now rewrite Hb, Hm, Hc, He.
  - intros env e Hb. rewrite handle_outcome. unfold outcome_of.
    now rewrite Hb, str_or_message.
  - intros env body e Hb Hm Hc. rewrite handle_outcome.
    unfold outcome_of. now rewrite Hb, Hm, Hc, str_or_message.
Qed.

End Program.

Arguments JUndefined {Num}.
Arguments JNull {Num}.
Arguments JBool {Num} _.
Arguments JNumber {Num} _.
Arguments JString {Num} _.
Arguments JArray {Num} _.
Arguments JObject {Num} _.
Arguments SetError {Num} _.
Arguments SetStatus {Num} _.
Arguments SetName {Num} _.
Arguments SetEmail {Num} _.
Arguments SetPhone {Num} _.
Arguments Fetch {Num} _ _.
Arguments Finished {Num} _ _.
Arguments Uncaught {Num} _ _ _.
Arguments Suspended {Num} _ _ _.
Arguments SubmitGesture {Num}.
Arguments Change {Num} _ _.
Arguments NetworkAnswer {Num} _.
Arguments RequestJson {Num}.
Arguments Insert {Num} _ _.
Arguments ConsoleError {Num} _ _.
Arguments subscribe_init {Num} st.
Arguments subscribe_request {Num} st.
Arguments net_accepts {Num} _ _.
Arguments net_refuses {Num} _ _.
Arguments net_html {Num} _ _.
Arguments net_down {Num} _ _.
Arguments minimal_insert {Num} _ _.
Arguments failing_insert {Num} _ _.
Arguments full_body {Num}.
Arguments body_without_email {Num}.


(** * Properties *)

(** ** The pattern matcher decides the language of a pattern *)

Lemma nullable_Matches (r : Re.regex) :
  Re.nullable r = true <-> Re.Matches r [].
Proof.
  split.
  - induction r; simpl; intro H; try discriminate.
    + constructor.
    + apply andb_true_iff in H as [Ha Hb].
      change (@nil N) with (@nil N ++ []). constructor; auto.
    + apply orb_true_iff in H as [Ha | Hb];
        [apply Re.MAltL | apply Re.MAltR]; auto.
    + constructor.
  - intro H. remember (@nil N) as w eqn:E.
    induction H; simpl; subst; try discriminate; auto.
    + apply app_eq_nil in E as [-> ->].
      rewrite IHMatches1, IHMatches2; auto.
    + rewrite IHMatches; auto.
    + rewrite IHMatches; auto using orb_true_r.
Qed.

Lemma Matches_Seq (a b : Re.regex) (s : str) :
  Re.Matches (Re.Seq a b) s <->
  exists u v, s = u ++ v /\ Re.Matches a u /\ Re.Matches b v.
Proof.
  split.
  - intro H. inversion H; subst; eauto.
  - intros (u & v & -> & Hu & Hv). now constructor.
Qed.

Lemma Matches_Alt (a b : Re.regex) (s : str) :
  Re.Matches (Re.Alt a b) s <-> Re.Matches a s \/ Re.Matches b s.
Proof.
  split.
  - intro H. inversion H; subst; auto.
  - intros [H | H]; [now apply Re.MAltL | now apply Re.MAltR].
Qed.

Lemma Matches_Class (p : N -> bool) (s : str) :
  Re.Matches (Re.Class p) s <-> exists c, s = [c] /\ p c = true.
Proof.
  split.
  - intro H. inversion H; subst; eauto.
  - intros (c & -> & Hc). now constructor.
Qed.

Lemma deriv_sound (c : N) (r : Re.regex) :
  forall s, Re.Matches (Re.deriv c r) s -> Re.Matches r (c :: s).
Proof.
  induction r as [ | | p | a IHa b IHb | a IHa b IHb | a IHa]; simpl; intros s H.
  - inversion H.
  - inversion H.
  - destruct (p c) eqn:Hc; inversion H; subst. now constructor.
  - assert (Hleft : forall w, Re.Matches (Re.Seq (Re.deriv c a) b) w ->
                              Re.Matches (Re.Seq a b) (c :: w)).
    { intros w Hw. apply Matches_Seq in Hw as (u & v & -> & Hu & Hv).
      change (c :: u ++ v) with ((c :: u) ++ v). constructor; auto. }
    destruct (Re.nullable a) eqn:Hn; [ | now apply Hleft].
    apply Matches_Alt in H as [H | H]; [now apply Hleft | ].
    change (c :: s) with ([] ++ c :: s).
    constructor; [now apply nullable_Matches | auto].
  - apply Matches_Alt in H as [H | H]; [apply Re.MAltL | apply Re.MAltR]; auto.
  - apply Matches_Seq in H as (u & v & -> & Hu & Hv). constructor; auto.
Qed.

Lemma deriv_complete (c : N) (r : Re.regex) (s : str) :
  Re.Matches r (c :: s) -> Re.Matches (Re.deriv c r) s.
Proof.
  intro H. remember (c :: s) as w eqn:E. revert s E.
  induction H; intros s' E; simpl; try discriminate.
  - injection E as -> <-. rewrite H. constructor.
  - destruct s as [ | c0 s0]; simpl in E.
    + subst t. apply nullable_Matches in H. rewrite H.
      apply Re.MAltR. auto.
    + injection E as -> <-.
      assert (Hseq : Re.Matches (Re.Seq (Re.deriv c a) b) (s0 ++ t))
        by (constructor; auto).
      destruct (Re.nullable a); [now apply Re.MAltL | exact Hseq].
  - apply Re.MAltL; auto.
  - apply Re.MAltR; auto.
  - injection E as -> <-. constructor; auto.
Qed.

Lemma test_Matches (s : str) :
  forall r, Re.test r s = true <-> Re.Matches r s.
Proof.
  induction s as [ | c s IH]; intro r; simpl.
  - apply nullable_Matches.
  - rewrite IH. split; [apply deriv_sound | apply deriv_complete].
Qed.

(** *** Inversion of the shapes the email pattern is built from *)

Lemma Matches_Star_Class (p : N -> bool) (s : str) :
  Re.Matches (Re.Star (Re.Class p)) s <-> Forall (fun c => p c = true) s.
Proof.
  split.
  - intro H. remember (Re.Star (Re.Class p)) as r eqn:E.
    induction H; try discriminate; [constructor | ].
    injection E as ->.
    inversion H; subst. simpl. constructor; auto.
  - induction 1 as [ | c l Hc _ IH]; [constructor | ].
    change (c :: l) with (c :: [] ++ l). constructor; [now constructor | exact IH].
Qed.

Lemma Matches_Plus_Class (p : N -> bool) (s : str) :
  Re.Matches (Re.Plus (Re.Class p)) s <->
  s <> [] /\ Forall (fun c => p c = true) s.
Proof.
  unfold Re.Plus. rewrite Matches_Seq. split.
  - intros (u & v & -> & Hu & Hv).
    apply Matches_Class in Hu as (c & -> & Hc).
    apply Matches_Star_Class in Hv. simpl.
    split; [discriminate | constructor; auto].
  - intros [Hne Hall]. destruct s as [ | c l]; [congruence | ].
    inversion Hall; subst.
    exists [c], l. repeat split; [now constructor | now apply Matches_Star_Class].
Qed.

Lemma not_space_not_at_true (c : N) :
  not_space_not_at c = true <-> is_white_space c = false /\ c <> char_at.
Proof.
  unfold not_space_not_at.
  rewrite negb_true_iff, orb_false_iff, N.eqb_neq. tauto.
Qed.

Lemma local_part_Matches (s : str) :
  Re.Matches (Re.Plus (Re.Class not_space_not_at)) s <-> local_part s.
Proof.
  rewrite Matches_Plus_Class. unfold local_part.
  split; intros [Hne Hall]; split; auto;
    eapply Forall_impl; try exact Hall; intros c Hc;
    now apply not_space_not_at_true.
Qed.

(** ** The validators *)

Lemma replace_not_digit_length (p : str) :
  List.length (replace_class not_digit [] p) = digit_count p.
Proof.
  induction p as [ | c p IH]; simpl; [reflexivity | ].
  unfold not_digit at 1. destruct (is_digit c); simpl; now rewrite IH.
Qed.

Lemma digit_count_filter (p : str) :
  digit_count (filter is_digit p) = digit_count p.
Proof.
  induction p as [ | c p IH]; simpl; [reflexivity | ].
  destruct (is_digit c) eqn:Hc; simpl; rewrite ?Hc, IH; reflexivity.
Qed.

(** C2.  [validatePhone] accepts a phone text exactly when the number of
    its characters that are digits 0-9 is at least 7 and at most 15;
    characters that are not digits do not count (dropping them changes
    nothing); the four sample texts of the specification behave as
    stated. *)
Theorem validatePhone_digit_count :
  (forall p : str,
      validatePhone p = true <-> (7 <= digit_count p /\ digit_count p <= 15)%nat)
  /\ (forall p : str, validatePhone (filter is_digit p) = validatePhone p)
  /\ validatePhone (lit "123456") = false
  /\ validatePhone (lit "1234567") = true
  /\ validatePhone (lit "+91 98765 43210") = true
  /\ validatePhone (lit "1234567890123456") = false.
Proof.
  repeat split; try reflexivity.
  - unfold validatePhone in H. rewrite replace_not_digit_length in H.
    apply andb_true_iff in H as [H _]. now apply Nat.leb_le.
  - unfold validatePhone in H. rewrite replace_not_digit_length in H.
    apply andb_true_iff in H as [_ H]. now apply Nat.leb_le.
  - intros [H7 H15]. unfold validatePhone.
    rewrite replace_not_digit_length.
    apply andb_true_iff. split; now apply Nat.leb_le.
  - intro p. unfold validatePhone.
    now rewrite !replace_not_digit_length, digit_count_filter.
Qed.

(** C3.  [validateEmail] accepts a text exactly when it has the shape:
    one or more characters that are neither white space (the class [\s])
    nor [@], then [@], then one or more such characters, then [.], then one
    or more such characters. *)
Theorem validateEmail_shape (s : str) :
  validateEmail s = true <-> email_shape s.
Proof.
  unfold validateEmail, email_pattern, email_shape.
  rewrite test_Matches. split.
  - intro H.
    apply Matches_Seq in H as (a & r1 & -> & Ha & H).
    apply Matches_Seq in H as (x & r2 & -> & Hx & H).
    apply Matches_Seq in H as (b & r3 & -> & Hb & H).
    apply Matches_Seq in H as (y & c & -> & Hy & Hc).
    apply Matches_Class in Hx as (cx & -> & Ex).
    apply Matches_Class in Hy as (cy & -> & Ey).
    apply N.eqb_eq in Ex, Ey. subst cx cy.
    exists a, b, c. repeat split; try (now apply local_part_Matches).
  - intros (a & b & c & -> & Ha & Hb & Hc).
    apply Matches_Seq. exists a, (char_at :: b ++ char_dot :: c).
    repeat split; [now apply local_part_Matches | ].
    apply Matches_Seq. exists [char_at], (b ++ char_dot :: c).
    repeat split; [constructor; apply N.eqb_refl | ].
    apply Matches_Seq. exists b, (char_dot :: c).
    repeat split; [now apply local_part_Matches | ].
    apply Matches_Seq. exists [char_dot], c.
    repeat split; [constructor; apply N.eqb_refl | now apply local_part_Matches].
Qed.

(** ** Concrete runs

    The statements above, applied to the sample inputs on the integer
    instance of the platform. *)

Lemma blank_name_run :
  first_failure blank_name_form = Some (lit "Please enter your name.")
  /\ submit int_truthy int_text v8_type_error net_accepts blank_name_form =
       Finished {| name := lit "   "; email := lit "not an email"; phone := lit "12";
                   status := StError;
                   error := Some (lit "Please enter your name.") |}
                [SetError None; SetError (Some (lit "Please enter your name."))]
  /\ network_calls (effects (submit int_truthy int_text v8_type_error net_accepts blank_name_form)) = [].
Proof.
  split; [reflexivity | ].
  exact (proj2 (submit_stops_at_first_failure int_truthy int_text v8_type_error
                  net_accepts blank_name_form)
               (lit "Please enter your name.") eq_refl).
Defined.

Lemma sample_form_sends_once :
  first_failure sample_form = None
  /\ network_calls (effects (submit int_truthy int_text v8_type_error net_accepts sample_form))
     = [Fetch (lit "/api/subscribe")
          {| method := lit "POST";
             headers := [ (lit "Content-Type", lit "application/json") ];
             body := JSON_stringify
                       (JObject [ (lit "name", JString (lit "Ada Lovelace"));
                                  (lit "email", JString (lit "ada@example.com"));
                                  (lit "phone", JString (lit "+91 98765 43210")) ]) |}].
Proof.
  split; [reflexivity | ].
  exact (proj2 (submit_sends_one_trimmed_post int_truthy int_text v8_type_error
                  net_accepts sample_form eq_refl)).
Defined.

Lemma sample_form_refused :
  first_failure sample_form = None
  /\ (status (final_state (submit int_truthy int_text v8_type_error net_refuses sample_form)) = StError
      /\ error (final_state (submit int_truthy int_text v8_type_error net_refuses sample_form))
         = Some (lit "duplicate key")
      /\ name (final_state (submit int_truthy int_text v8_type_error net_refuses sample_form))
         = lit "  Ada Lovelace ")
  /\ (status (final_state (submit int_truthy int_text v8_type_error net_down sample_form)) = StError
      /\ error (final_state (submit int_truthy int_text v8_type_error net_down sample_form))
         = Some (lit "Something went wrong.")).
Proof.
  split; [reflexivity | ]. split.
  - pose proof (submit_network_phase int_truthy int_text v8_type_error
                  net_refuses sample_form eq_refl) as P.
    cbv zeta in P.
    change (answer_to net_refuses sample_form)
      with (@net_refuses safe_int subscribe_url (subscribe_init sample_form)) in P.
    cbv beta iota delta [net_refuses json ok] in P.
    destruct P as (Hs & (Hn & _) & _ & Hmsg & _).
    split; [exact Hs | ].
    split; [ | exact Hn].
    apply Hmsg; [reflexivity | discriminate].
  - pose proof (submit_network_phase int_truthy int_text v8_type_error
                  net_down sample_form eq_refl) as P.
    cbv zeta in P.
    change (answer_to net_down sample_form)
      with (@net_down safe_int subscribe_url (subscribe_init sample_form)) in P.
    cbv beta iota delta [net_down] in P.
    destruct P as (Hs & _ & Hmsg).
    split; [exact Hs | exact Hmsg].
Defined.

Lemma sample_form_html_answer :
  first_failure sample_form = None
  /\ status (final_state (submit int_truthy int_text v8_type_error net_html sample_form)) = StError
  /\ error (final_state (submit int_truthy int_text v8_type_error net_html sample_form))
     = Some (lit "Unexpected token < in JSON").
Proof.
  split; [reflexivity | ].
  exact (proj1 (submit_parses_before_checking_ok int_truthy int_text v8_type_error
                  net_html sample_form eq_refl)
               _ _ eq_refl eq_refl).
Defined.


Lemma post_without_email :
  let env := {| parsed_body := Fulfilled body_without_email;
                collaborator := minimal_insert |} in
  to_boolean int_truthy (body_field body_without_email (lit "email")) = false
  /\ handle int_truthy env =
       (Returned (NextResponse_json
                    (JObject [ (lit "error", JString (lit "Missing name or email")) ])
                    400),
        [RequestJson]).
Proof.
  intro env. split; [reflexivity | ].
  exact (proj1 (proj1 (POST_rejects_missing_name_or_email int_truthy)
                      env body_without_email eq_refl (or_intror eq_refl))).
Defined.

Lemma post_full_body :
  let env := {| parsed_body := Fulfilled full_body; collaborator := minimal_insert |} in
  to_boolean int_truthy (body_field full_body (lit "name")) = true
  /\ to_boolean int_truthy (body_field full_body (lit "email")) = true
  /\ handle int_truthy env =
       (Returned (NextResponse_json
                    (JObject [ (lit "ok", JBool true); (lit "data", JNull) ]) 200),
        [RequestJson; Insert (lit "early_access") [inserted_record full_body]]).
Proof.
  intro env. split; [reflexivity | ]. split; [reflexivity | ].
  exact (POST_success_passes_data_through int_truthy env
           (body := full_body) eq_refl eq_refl eq_refl eq_refl eq_refl).
Defined.

(** C6 as the specification states it fails: a request with truthy [name]
    and [email] whose insert the collaborator reports without error - with
    [data: null], as the client does for an insert without [.select()] - is
    answered 200 with [{ok: true, data: null}], and that [data] is no array
    that contains the inserted record. *)
Lemma POST_success_without_rows :
  let env := {| parsed_body := Fulfilled (@full_body safe_int);
                collaborator := minimal_insert |} in
  (to_boolean int_truthy (body_field full_body (lit "name")) = true
   /\ to_boolean int_truthy (body_field full_body (lit "email")) = true
   /\ exists res,
        collaborator env (lit "early_access") [inserted_record full_body] = Fulfilled res
        /\ insert_error res = None)
  /\ exists resp log,
       handle int_truthy env = (Returned resp, log)
       /\ response_status resp = 200
       /\ member (response_body resp) (lit "ok") = JBool true
       /\ member (response_body resp) (lit "data") = JNull
       /\ ~ (exists rows,
               member (response_body resp) (lit "data") = JArray rows
               /\ In (inserted_record full_body) rows).
Proof.
  intro env. split.
  - split; [reflexivity | ]. split; [reflexivity | ].
    eexists. split; reflexivity.
  - do 2 eexists. split; [reflexivity | ].
    split; [reflexivity | ]. split; [reflexivity | ]. split; [reflexivity | ].
    intros (rows & H & _).
    change (@JNull safe_int = JArray rows) in H. discriminate H.
Qed.

Lemma post_failing_insert :
  let env := {| parsed_body := Fulfilled full_body; collaborator := failing_insert |} in
  let unread := {| parsed_body := Rejected {| message := [] |};
                   collaborator := @failing_insert safe_int |} in
  missing_name_or_email int_truthy full_body = false
  /\ handle int_truthy env =
       (Returned (NextResponse_json
                    (JObject [ (lit "error", JString (lit "permission denied")) ]) 500),
        [RequestJson; Insert (lit "early_access") [inserted_record full_body];
         ConsoleError (lit "Supabase insert error:")
                      {| message := lit "permission denied" |}])
  /\ handle int_truthy unread =
       (Returned (NextResponse_json
                    (JObject [ (lit "error", JString (lit "Unknown error")) ]) 500),
        [RequestJson; ConsoleError (lit "Subscribe route error:") {| message := [] |}]).
Proof.
  intros env unread. split; [reflexivity | ]. split.
  - exact (proj1 (proj2 (POST_handles_every_failure int_truthy))
                 env full_body _ _ eq_refl eq_refl eq_refl eq_refl).
  - exact (proj1 (proj2 (proj2 (POST_handles_every_failure int_truthy)))
                 unread _ eq_refl).
Defined.

(** C9 as the specification states it fails: [submit()] called in a
    render whose [status] is sending, on fields that pass validation, issues
    a network call all the same.  The handler has no guard of its own. *)
Lemma handler_called_while_sending :
  status sending_form = StSending
  /\ network_calls
       (effects (submit int_truthy int_text v8_type_error net_accepts sending_form))
     = [subscribe_request sending_form].
Proof. split; reflexivity. Qed.

(** A few texts against the email pattern. *)
Lemma validateEmail_samples :
  validateEmail (lit "a@b.c") = true
  /\ validateEmail (lit "first.last@mail.example.org") = true
  /\ validateEmail (lit "a@b") = false
  /\ validateEmail (lit "a b@c.d") = false
  /\ validateEmail (lit "a@@b.c") = false
  /\ validateEmail (lit "@b.c") = false
  /\ validateEmail (lit "a@b.") = false
  /\ validateEmail (lit " a@b.c") = false.
Proof. repeat split; reflexivity. Qed.

(** * Further properties *)

(** ** Trimming *)

Lemma trimStart_starts_clean (s : str) : starts_clean (trimStart s).
Proof.
  induction s as [ | c s IH]; simpl; [exact I | ].
  destruct (is_white_space c) eqn:E; [exact IH | exact E].
Qed.

Lemma trimStart_fixed (s : str) : starts_clean s -> trimStart s = s.
Proof.
  destruct s as [ | c s]; simpl; [reflexivity | ]. now intros ->.
Qed.

Lemma trimStart_suffix (s : str) :
  exists w, s = w ++ trimStart s /\ Forall (fun c => is_white_space c = true) w.
Proof.
  induction s as [ | c s (w & E & Hw)]; simpl.
  - exists []. split; [reflexivity | constructor].
  - destruct (is_white_space c) eqn:Hc.
    + exists (c :: w). split; [simpl; now rewrite <- E | now constructor].
    + exists []. split; [reflexivity | constructor].
Qed.

Lemma trimEnd_prefix (s : str) :
  exists w, s = trimEnd s ++ w /\ Forall (fun c => is_white_space c = true) w.
Proof.
  destruct (trimStart_suffix (rev s)) as (w & E & Hw).
  exists (rev w). split.
  - unfold trimEnd. rewrite <- rev_app_distr, <- E. now rewrite rev_involutive.
  - now apply Forall_rev.
Qed.

Lemma trimEnd_keeps_start (s : str) : starts_clean s -> starts_clean (trimEnd s).
Proof.
  intro H. destruct (trimEnd_prefix s) as (w & E & _).
  destruct (trimEnd s) as [ | c t]; [exact I | ].
  rewrite E in H. exact H.
Qed.

Lemma trimEnd_fixed (s : str) : starts_clean (rev s) -> trimEnd s = s.
Proof.
  intro H. unfold trimEnd. rewrite (trimStart_fixed _ H). apply rev_involutive.
Qed.

Lemma trim_clean (s : str) : starts_clean (trim s) /\ starts_clean (rev (trim s)).
Proof.
  unfold trim. split.
  - apply trimEnd_keeps_start, trimStart_starts_clean.
  - unfold trimEnd. rewrite rev_involutive. apply trimStart_starts_clean.
Qed.

Lemma trim_idempotent (s : str) : trim (trim s) = trim s.
Proof.
  destruct (trim_clean s) as [Hs He].
  unfold trim at 1. rewrite (trimStart_fixed _ Hs). now apply trimEnd_fixed.
Qed.

Lemma trimStart_nil (s : str) :
  trimStart s = [] <-> Forall (fun c => is_white_space c = true) s.
Proof.
  split.
  - intro E. destruct (trimStart_suffix s) as (w & Es & Hw).
    rewrite E, app_nil_r in Es. now subst.
  - induction 1 as [ | c l Hc _ IH]; simpl; [reflexivity | now rewrite Hc].
Qed.

Lemma trim_nil (s : str) :
  trim s = [] <-> Forall (fun c => is_white_space c = true) s.
Proof.
  rewrite <- trimStart_nil. unfold trim, trimEnd. split.
  - intro E. apply (f_equal (@rev N)) in E. rewrite rev_involutive in E. simpl in E.
    pose proof (trimStart_starts_clean s) as Hc.
    destruct (trimStart s) as [ | c t] eqn:Et; [reflexivity | exfalso].
    apply trimStart_nil in E. apply Forall_rev in E. rewrite rev_involutive in E.
    inversion E; subst. simpl in Hc. congruence.
  - intros ->. reflexivity.
Qed.

Lemma trim_no_space (s : str) :
  Forall (fun c => is_white_space c = false) s -> trim s = s.
Proof.
  intro H. unfold trim.
  assert (Hs : starts_clean s) by (destruct H; simpl; auto).
  rewrite (trimStart_fixed _ Hs). apply trimEnd_fixed.
  apply Forall_rev in H. destruct H; simpl; auto.
Qed.

(** ** Digits and white space *)

Lemma digit_not_space (c : N) : is_white_space c = true -> is_digit c = false.
Proof.
  unfold is_digit. intro H.
  destruct ((48 <=? c) && (c <=? 57))%N eqn:E; [ | reflexivity].
  apply andb_true_iff in E as [E1 E2].
  apply N.leb_le in E1, E2.
  unfold is_white_space in H.
  repeat (apply orb_true_iff in H as [H | H]);
    try (apply N.eqb_eq in H; lia).
  apply andb_true_iff in H as [H _]. apply N.leb_le in H. lia.
Qed.

Lemma digit_count_app (a b : str) :
  digit_count (a ++ b) = (digit_count a + digit_count b)%nat.
Proof.
  induction a as [ | c a IH]; simpl; [reflexivity | ].
  destruct (is_digit c); simpl; now rewrite IH.
Qed.

Lemma digit_count_spaces (w : str) :
  Forall (fun c => is_white_space c = true) w -> digit_count w = 0%nat.
Proof.
  induction 1 as [ | c l Hc _ IH]; simpl; [reflexivity | ].
  now rewrite (digit_not_space c Hc).
Qed.

Lemma digit_count_trim (p : str) : digit_count (trim p) = digit_count p.
Proof.
  unfold trim.
  destruct (trimStart_suffix p) as (w & E & Hw).
  destruct (trimEnd_prefix (trimStart p)) as (w' & E' & Hw').
  rewrite E at 2. rewrite E' at 2.
  rewrite !digit_count_app, (digit_count_spaces Hw), (digit_count_spaces Hw'). lia.
Qed.

Lemma validatePhone_by_count (p : str) :
  validatePhone p = ((7 <=? digit_count p)%nat && (digit_count p <=? 15)%nat).
Proof. unfold validatePhone. now rewrite replace_not_digit_length. Qed.

Lemma validatePhone_trim (p : str) : validatePhone (trim p) = validatePhone p.
Proof. now rewrite !validatePhone_by_count, digit_count_trim. Qed.

(** ** Accepted emails *)

Lemma validateEmail_parts (s : str) :
  validateEmail s = true ->
  exists a b c,
    s = a ++ char_at :: b ++ char_dot :: c
    /\ local_part a /\ local_part b /\ local_part c.
Proof.
  unfold validateEmail, email_pattern. intro H. apply test_Matches in H.
  apply Matches_Seq in H as (a & r1 & -> & Ha & H).
  apply Matches_Seq in H as (x & r2 & -> & Hx & H).
  apply Matches_Seq in H as (b & r3 & -> & Hb & H).
  apply Matches_Seq in H as (y & c & -> & Hy & Hc).
  apply Matches_Class in Hx as (cx & -> & Ex), Hy as (cy & -> & Ey).
  apply N.eqb_eq in Ex, Ey. subst cx cy.
  exists a, b, c. repeat split; now apply local_part_Matches.
Qed.

Lemma local_part_no_space (a : str) :
  local_part a -> Forall (fun c => is_white_space c = false) a.
Proof.
  intros [_ H]. eapply Forall_impl; [ | exact H]. now intros c [Hc _].
Qed.

Lemma local_part_no_at (a : str) :
  local_part a -> count_occ N.eq_dec a char_at = 0%nat.
Proof.
  intros [_ H]. apply count_occ_not_In. intro Hin.
  rewrite Forall_forall in H. destruct (H _ Hin) as [_ Hne]. now apply Hne.
Qed.

Lemma local_part_length (a : str) : local_part a -> (1 <= List.length a)%nat.
Proof. intros [Hne _]. destruct a; [congruence | simpl; lia]. Qed.

(** X2.  An email that [validateEmail] accepts has no white space anywhere,
    exactly one [@] and at least five code units; trimming leaves it as it
    is. *)
Theorem validateEmail_accepted_facts (e : str) :
  validateEmail e = true ->
  Forall (fun c => is_white_space c = false) e
  /\ count_occ N.eq_dec e char_at = 1%nat
  /\ (5 <= List.length e)%nat
  /\ trim e = e.
Proof.
  intro H. destruct (validateEmail_parts e H) as (a & b & c & -> & Ha & Hb & Hc).
  assert (Hsp : Forall (fun x => is_white_space x = false)
                       (a ++ char_at :: b ++ char_dot :: c)).
  { apply Forall_app. split; [now apply local_part_no_space | ].
    constructor; [reflexivity | ].
    apply Forall_app. split; [now apply local_part_no_space | ].
    constructor; [reflexivity | now apply local_part_no_space]. }
  repeat split.
  - exact Hsp.
  - rewrite count_occ_app, (local_part_no_at Ha). simpl.
    rewrite count_occ_app, (local_part_no_at Hb). simpl.
    now rewrite (local_part_no_at Hc).
  - pose proof (local_part_length Ha). pose proof (local_part_length Hb).
    pose proof (local_part_length Hc).
    rewrite length_app. simpl. rewrite length_app. simpl. lia.
  - now apply trim_no_space.
Qed.

Lemma an_accepted_email :
  validateEmail (lit "ada@example.com") = true
  /\ count_occ N.eq_dec (lit "ada@example.com") char_at = 1%nat
  /\ trim (lit "ada@example.com") = lit "ada@example.com".
Proof.
  split; [reflexivity | ].
  destruct (validateEmail_accepted_facts (lit "ada@example.com") eq_refl)
    as (_ & Hat & _ & Htrim).
  split; [exact Hat | exact Htrim].
Defined.

Lemma validateEmail_nonempty_trim (e : str) :
  validateEmail e = true -> trim e = e /\ is_empty e = false.
Proof.
  intro H. destruct (validateEmail_parts e H) as (a & b & c & E & Ha & Hb & Hc).
  split.
  - apply trim_no_space. subst e.
    apply Forall_app. split; [now apply local_part_no_space | ].
    constructor; [reflexivity | ].
    apply Forall_app. split; [now apply local_part_no_space | ].
    constructor; [reflexivity | now apply local_part_no_space].
  - subst e. destruct a; [destruct Ha; congruence | reflexivity].
Qed.

Section Further.

Variable Num : Type.
Variable num_truthy : Num -> bool.
Variable num_text : Num -> str.
Variable type_error_text : str.

(** [submit] on this platform *)
Local Notation "'submit_'" := (@submit Num num_truthy num_text type_error_text).
Local Notation "'step_'" := (@step Num num_truthy num_text type_error_text).
Local Notation "'handleSubmit_'" := (@handleSubmit Num num_truthy num_text type_error_text).
Local Notation "'handle_'" := (@handle Num num_truthy).
Local Notation "'resumes_'" := (@resumes Num num_truthy num_text type_error_text).
Local Notation "'page_invariant_'" :=
  (@page_invariant Num num_truthy num_text type_error_text).
Local Notation "'resumed_'" :=
  (@resumed Num num_truthy num_text type_error_text).
Local Notation "'effects_after_'" :=
  (@effects_after Num num_truthy num_text type_error_text).
Local Notation "'run_events_'" :=
  (@run_events Num num_truthy num_text type_error_text).

Lemma first_failure_name (st : FormState) :
  first_failure st = Some name_message <-> is_empty (trim (name st)) = true.
Proof.
  unfold first_failure.
  destruct (is_empty (trim (name st))); [tauto | ].
  destruct (validateEmail (email st)); simpl.
  - destruct (validatePhone (phone st)); simpl; split; intro H;
      try discriminate; vm_compute in H; discriminate.
  - split; intro H; try discriminate; vm_compute in H; discriminate.
Qed.

Lemma is_empty_true (s : str) : is_empty s = true <-> s = [].
Proof. destruct s; simpl; split; congruence. Qed.

(** X1.  [submit] stops at the name check - its effects are the clearing of
    the error and the setting of the name message, nothing else - exactly
    when every code unit of the name is white space (the empty name
    included). *)
Theorem submit_name_check (net : str -> RequestInit Num -> Settled (Response Num))
        (st : FormState) :
  Forall (fun c => is_white_space c = true) (name st) <->
  effects (submit_ net st) = [SetError None; SetError (Some name_message)].
Proof.
  rewrite <- trim_nil, <- is_empty_true, <- first_failure_name. split.
  - intro H. now rewrite (submit_invalid num_truthy num_text type_error_text net st H).
  - destruct (first_failure st) as [msg | ] eqn:E.
    + rewrite (submit_invalid num_truthy num_text type_error_text net st E). simpl.
      intro H. now injection H as ->.
    + rewrite (submit_valid num_truthy num_text type_error_text net st E). simpl.
      discriminate.
Qed.


Lemma first_failure_fields (st st' : FormState) :
  name st' = name st -> email st' = email st -> phone st' = phone st ->
  first_failure st' = first_failure st.
Proof. unfold first_failure. now intros -> -> ->. Qed.

Lemma network_calls_valid net (st : FormState) :
  first_failure st = None ->
  network_calls (effects (submit_ net st)) = [subscribe_request st].
Proof.
  intro H. rewrite (submit_valid num_truthy num_text type_error_text net st H).
  simpl. unfold effects_after. destruct (raised _); reflexivity.
Qed.

(** X3.  What a valid form sends is already in normal form: the name sent
    is not empty and neither starts nor ends with white space, the email
    sent is the email as typed, and the three values sent pass the three
    checks as they are, so submitting them again sends the very same
    request. *)
Theorem sent_values_are_normalised (net : str -> RequestInit Num -> Settled (Response Num))
        (st : FormState) :
  first_failure st = None ->
  trim (name st) <> []
  /\ starts_clean (trim (name st)) /\ starts_clean (rev (trim (name st)))
  /\ trim (email st) = email st
  /\ is_empty (trim (trim (name st))) = false
  /\ validateEmail (trim (email st)) = true
  /\ validatePhone (trim (phone st)) = true
  /\ network_calls (effects (submit_ net (trimmed st)))
     = network_calls (effects (submit_ net st)).
Proof.
  intro H. pose proof H as H0.
  apply first_failure_None in H as (Hn & He & Hp).
  destruct (validateEmail_nonempty_trim _ He) as [Het _].
  destruct (trim_clean (name st)) as [Hs Hr].
  assert (Hv : first_failure (trimmed st) = None).
  { unfold first_failure, trimmed; simpl.
    now rewrite trim_idempotent, Hn, Het, He, validatePhone_trim, Hp. }
  repeat split; auto.
  - intro E. now rewrite E in Hn.
  - now rewrite trim_idempotent.
  - now rewrite Het.
  - now rewrite validatePhone_trim.
  - rewrite (network_calls_valid net _ Hv), (network_calls_valid net _ H0).
    unfold subscribe_request, subscribe_init, trimmed; simpl.
    now rewrite !trim_idempotent.
Qed.

Lemma exception_message_nonempty (e : JsError) : exception_message e <> [].
Proof.
  unfold exception_message, str_or.
  destruct (message e) as [ | c m]; simpl; [ | discriminate].
  intro H. vm_compute in H. discriminate.
Qed.

Lemma first_failure_nonempty (st : FormState) (msg : str) :
  first_failure st = Some msg -> msg <> [].
Proof.
  unfold first_failure.
  destruct (is_empty (trim (name st)));
    [ | destruct (validateEmail (email st)); simpl;
        [destruct (validatePhone (phone st)); simpl | ] ];
    intro H; try discriminate; injection H as <-;
    intro E; vm_compute in E; discriminate.
Qed.

(** X4.  After any [submit] the error cell is either [null] or a text that
    is not empty; it is [null] exactly when the validations passed and the
    run ended in [success]; and a run whose validations passed ends in
    [success] or in [error], never in [idle] or [sending]. *)
Theorem error_cell_after_submit (net : str -> RequestInit Num -> Settled (Response Num))
        (st : FormState) :
  let st' := final_state (submit_ net st) in
  (error st' = None <-> first_failure st = None /\ status st' = StSuccess)
  /\ (forall m, error st' = Some m -> m <> [])
  /\ (first_failure st = None -> status st' = StSuccess \/ status st' = StError).
Proof.
  intro st'. subst st'.
  destruct (first_failure st) as [msg | ] eqn:E.
  - rewrite (submit_invalid num_truthy num_text type_error_text net st E). simpl.
    repeat split; try discriminate.
    + now intros [? _].
    + intros m H. injection H as <-. exact (first_failure_nonempty st E).
  - rewrite (submit_valid num_truthy num_text type_error_text net st E). simpl.
    unfold after_answer. destruct (raised _) as [e | ]; simpl.
    + repeat split; try discriminate; auto.
      * now intros [_ ?].
      * intros m H. injection H as <-. apply exception_message_nonempty.
    + repeat split; auto. discriminate.
Qed.

(** X5.  After any [submit] the page shows feedback: the success note or an
    error line.  When the validations passed it shows exactly one of the
    two and the button is enabled again; when one failed, the error line is
    that validation's message. *)
Theorem feedback_after_submit (net : str -> RequestInit Num -> Settled (Response Num))
        (st : FormState) :
  let v := render (final_state (submit_ net st)) in
  (success_note v = true \/ exists m, error_line v = Some m)
  /\ (first_failure st = None ->
      button_disabled v = false
      /\ (success_note v = true <-> error_line v = None))
  /\ (forall msg, first_failure st = Some msg -> error_line v = Some msg).
Proof.
  intro v. subst v.
  destruct (first_failure st) as [msg | ] eqn:E.
  - rewrite (submit_invalid num_truthy num_text type_error_text net st E). simpl.
    pose proof (first_failure_nonempty st E) as Hne.
    destruct msg as [ | c m]; [congruence | ].
    split; [right; eauto | ]. split; [discriminate | ].
    intros ? H. now injection H as <-.
  - rewrite (submit_valid num_truthy num_text type_error_text net st E). simpl.
    unfold after_answer. destruct (raised _) as [e | ]; simpl.
    + pose proof (exception_message_nonempty e) as Hne.
      destruct (exception_message e) as [ | c m]; [congruence | ].
      split; [right; eauto | ]. split; [ | discriminate].
      intros _. split; [reflexivity | ]. split; discriminate.
    + split; [now left | ]. split; [ | discriminate].
      intros _. split; [reflexivity | ]. split; reflexivity.
Qed.

(** X6.  The fields survive a failure: submitting again after a run that
    ended in [error], without touching the fields, sends the same request
    again. *)
Theorem retry_sends_the_same_request
        (net net' : str -> RequestInit Num -> Settled (Response Num)) (st : FormState) :
  first_failure st = None ->
  status (final_state (submit_ net st)) = StError ->
  network_calls (effects (submit_ net' (final_state (submit_ net st))))
  = network_calls (effects (submit_ net st))
  /\ network_calls (effects (submit_ net st)) = [subscribe_request st].
Proof.
  intros H Hs. rewrite (network_calls_valid net st H). split; [ | reflexivity].
  revert Hs. rewrite (submit_valid num_truthy num_text type_error_text net st H). simpl.
  unfold after_answer. destruct (raised _) as [e | ]; simpl; [intros _ | discriminate].
  rewrite network_calls_valid.
  - reflexivity.
  - rewrite <- H. now apply first_failure_fields.
Qed.

(** X7.  The fields do not survive a success: submitting again after a run
    that ended in [success] stops at the name check and sends nothing; the
    page then shows the name message next to the success note, which stays
    up. *)
Theorem resubmit_after_success
        (net net' : str -> RequestInit Num -> Settled (Response Num)) (st : FormState) :
  first_failure st = None ->
  status (final_state (submit_ net st)) = StSuccess ->
  let again := submit_ net' (final_state (submit_ net st)) in
  effects again = [SetError None; SetError (Some name_message)]
  /\ network_calls (effects again) = []
  /\ success_note (render (final_state again)) = true
  /\ error_line (render (final_state again)) = Some name_message.
Proof.
  intros H Hs again. subst again. revert Hs.
  rewrite (submit_valid num_truthy num_text type_error_text net st H). simpl.
  unfold after_answer. destruct (raised _) as [e | ]; simpl; [discriminate | intros _].
  repeat split.
Qed.


(** ** The page over sequences of events *)

Lemma handleSubmit_suspends (st : FormState) :
  first_failure st = None ->
  exists k,
    advance (handleSubmit_ st) st [] =
      Suspended {| name := name st; email := email st; phone := phone st;
                   status := StSending; error := None |}
                [SetError None; SetStatus StSending; subscribe_request st] k
    /\ resumes_ k.
Proof.
  intro H. apply first_failure_None in H as (Hn & He & Hp).
  unfold handleSubmit. rewrite Hn, He, Hp. cbn.
  eexists. split; [reflexivity | ].
  intros ans st'. unfold resumed, effects_after, raised.
  destruct ans as [res | e]; cbn; [ | reflexivity].
  destruct (json res) as [j | e]; cbn; [ | reflexivity].
  destruct (ok res); cbn; [reflexivity | ].
  unfold server_error. destruct (new_Error _ _ _) as [e | e]; reflexivity.
Qed.

Lemma resumed_not_sending (st : FormState) (ans : Settled (Response Num)) :
  status (resumed_ st ans) <> StSending.
Proof. unfold resumed. destruct (raised _ _ _ _); simpl; discriminate. Qed.

Lemma effects_after_no_call (ans : Settled (Response Num)) :
  network_calls (effects_after_ ans) = [].
Proof. unfold effects_after. destruct (raised _ _ _ _); reflexivity. Qed.

Lemma updateField_status (f : Field) (v : str) (st : FormState) :
  status (updateField Num f v st) = status st.
Proof. destruct f; reflexivity. Qed.

Lemma updateField_error (f : Field) (v : str) (st : FormState) :
  error (updateField Num f v st) = error st.
Proof. destruct f; reflexivity. Qed.

Lemma advance_invalid (st : FormState) (msg : str) :
  first_failure st = Some msg ->
  advance (handleSubmit_ st) st [] =
    Finished {| name := name st; email := email st; phone := phone st;
                status := status st; error := Some msg |}
             [SetError None; SetError (Some msg)].
Proof.
  unfold first_failure, handleSubmit.
  destruct (is_empty (trim (name st))).
  - intro E; injection E as <-. reflexivity.
  - destruct (validateEmail (email st)); simpl.
    + destruct (validatePhone (phone st)); simpl.
      * discriminate.
      * intro E; injection E as <-. reflexivity.
    + intro E; injection E as <-. reflexivity.
Qed.

Lemma step_keeps_invariant (c : Page Num) (ev : Event Num) :
  page_invariant_ c -> page_invariant_ (step_ c ev).
Proof.
  intros [Hflight Hwire]. destruct ev as [ | f v | ans]; unfold step.
  - unfold submit_disabled.
    destruct (status_eqb (status (view c)) StSending) eqn:Hs; [now split | ].
    destruct Hflight as [[Hp Hne] | (k & Hp & Hk & Hsend & Herr)];
      [ | rewrite Hsend in Hs; discriminate].
    destruct (first_failure (view c)) as [msg | ] eqn:E.
    + rewrite (advance_invalid (view c) E). unfold settle_into, page_invariant. simpl.
      split; [left; split; [exact Hp | exact Hne] | now rewrite app_nil_r].
    + destruct (handleSubmit_suspends (view c) E) as (k & Hadv & Hk).
      rewrite Hadv. unfold settle_into, page_invariant. simpl. split.
      * right. exists k. rewrite Hp. repeat split; auto.
      * apply Forall_app. split; [exact Hwire | ].
        constructor; [ | constructor]. exists (view c). auto.
  - unfold page_invariant. simpl. rewrite updateField_status, updateField_error.
    split; [exact Hflight | exact Hwire].
  - destruct Hflight as [[Hp Hne] | (k & Hp & Hk & Hsend & Herr)].
    + rewrite Hp. split; [now left | exact Hwire].
    + rewrite Hp, Hk. unfold settle_into, page_invariant. simpl. split.
      * left. split; [reflexivity | apply resumed_not_sending].
      * now rewrite effects_after_no_call, app_nil_r.
Qed.

Lemma initial_page_invariant : page_invariant_ (initial_page Num).
Proof.
  split; [left; split; [reflexivity | discriminate] | constructor].
Qed.

Lemma run_events_keeps_invariant (evs : list (Event Num)) :
  forall c, page_invariant_ c -> page_invariant_ (run_events_ c evs).
Proof.
  induction evs as [ | ev evs IH]; intros c H; simpl; [exact H | ].
  apply IH. now apply step_keeps_invariant.
Qed.

Lemma step_wire_growth (c : Page Num) (ev : Event Num) :
  page_invariant_ c ->
  (List.length (wire (step_ c ev))
   <= List.length (wire c) + (if is_submit_gesture ev then 1 else 0))%nat.
Proof.
  intros [Hflight _]. destruct ev as [ | f v | ans]; unfold step.
  - destruct (submit_disabled (view c)); [simpl; lia | ].
    destruct (first_failure (view c)) as [msg | ] eqn:E.
    + rewrite (advance_invalid (view c) E). unfold settle_into. simpl.
      rewrite app_nil_r. lia.
    + destruct (handleSubmit_suspends (view c) E) as (k & Hadv & _).
      rewrite Hadv. unfold settle_into. simpl. rewrite length_app. simpl. lia.
  - simpl. lia.
  - destruct Hflight as [[Hp _] | (k & Hp & Hk & _ & _)]; rewrite Hp; [simpl; lia | ].
    rewrite Hk. unfold settle_into. simpl.
    rewrite effects_after_no_call, app_nil_r. lia.
Qed.

Lemma run_events_wire_growth (evs : list (Event Num)) :
  forall c, page_invariant_ c ->
  (List.length (wire (run_events_ c evs))
   <= List.length (wire c) + List.length (filter (@is_submit_gesture Num) evs))%nat.
Proof.
  induction evs as [ | ev evs IH]; intros c H; [simpl; lia | ].
  pose proof (@step_wire_growth c ev H) as Hstep.
  pose proof (IH _ (@step_keeps_invariant c ev H)) as Hrest.
  unfold run_events in *. simpl fold_left. simpl filter.
  revert Hstep. destruct (is_submit_gesture ev); simpl; intro Hstep; lia.
Qed.

(** X8.  Whatever the user and the network do, starting from the first
    render: at most one request of the form is in flight; one is in flight
    exactly when [status] is [sending], which is exactly when the submit
    button is disabled and reads "Joining...". *)
Theorem one_request_in_flight (evs : list (Event Num)) :
  let c := run_events_ (initial_page Num) evs in
  (List.length (parked c) <= 1)%nat
  /\ (parked c <> [] <-> status (view c) = StSending)
  /\ (button_disabled (render (view c)) = true <-> parked c <> [])
  /\ (button_label (render (view c)) = lit "Joining..." <-> parked c <> []).
Proof.
  intro c.
  destruct (run_events_keeps_invariant evs initial_page_invariant)
    as [[[Hp Hne] | (k & Hp & _ & Hs & _)] _]; fold c in Hp, Hne || fold c in Hp, Hs.
  - rewrite Hp. simpl. split; [lia | ].
    assert (Hb : status_eqb (status (view c)) StSending = false)
      by (destruct (status (view c)); simpl; congruence).
    rewrite Hb. repeat split; intro H; try congruence.
    vm_compute in H. discriminate.
  - unfold render. simpl. rewrite Hp, Hs. simpl.
    repeat split; intros; try discriminate; auto.
Qed.

(** X9.  Whatever the user and the network do, starting from the first
    render: every request that went out is the request of a form state that
    passed the three validations, and there are at most as many requests as
    submit gestures. *)
Theorem only_validated_requests_go_out (evs : list (Event Num)) :
  let c := run_events_ (initial_page Num) evs in
  Forall (fun q => exists st, first_failure st = None /\ q = subscribe_request st)
         (wire c)
  /\ (List.length (wire c) <= List.length (filter (@is_submit_gesture Num) evs))%nat.
Proof.
  intro c. split.
  - exact (proj2 (run_events_keeps_invariant evs initial_page_invariant)).
  - exact (run_events_wire_growth evs initial_page_invariant).
Qed.

(** X10.  When the network answers a page that has a request in flight, no
    request stays in flight and none goes out; on a success ([ok] with a
    JSON body) the three fields are emptied, whatever was typed while the
    request was in flight, and no error line is shown; otherwise the fields
    stay as they are at that moment and an error line is shown; in both
    cases the submit button is enabled again. *)
Theorem answer_releases_the_form (evs : list (Event Num)) (ans : Settled (Response Num)) :
  let c := run_events_ (initial_page Num) evs in
  parked c <> [] ->
  let c' := step_ c (NetworkAnswer ans) in
  parked c' = [] /\ wire c' = wire c
  /\ button_disabled (render (view c')) = false
  /\ ((status (view c') = StSuccess
       /\ name (view c') = [] /\ email (view c') = [] /\ phone (view c') = []
       /\ error_line (render (view c')) = None)
      \/ (status (view c') = StError /\ retained (view c) (view c')
          /\ exists m, error_line (render (view c')) = Some m)).
Proof.
  intros c Hne c'.
  destruct (run_events_keeps_invariant evs initial_page_invariant)
    as [[[Hp _] | (k & Hp & Hk & Hs & Herr)] _]; fold c in Hp; [congruence | ].
  fold c in Hs, Herr.
  assert (E : c' = {| view := resumed_ (view c) ans; parked := []; wire := wire c |}).
  { subst c'. unfold step. rewrite Hp, Hk. unfold settle_into. simpl.
    now rewrite effects_after_no_call, app_nil_r. }
  rewrite E. clear E c'. unfold resumed, render, retained. simpl.
  split; [reflexivity | split; [reflexivity | ] ].
  destruct (raised _ _ _ ans) as [e | ]; simpl.
  - split; [reflexivity | right]. repeat split.
    pose proof (exception_message_nonempty e) as Hm.
    destruct (exception_message e) as [ | x m]; [congruence | eauto].
  - rewrite Herr. split; [reflexivity | left]. repeat split.
Qed.


(** C9 (as amended).  The guard against a second submission is the submit
    control, not the handler.  After every sequence of submit gestures,
    input changes and network answers from the first render: [status] is
    [sending] for as long as a request is in flight; and while [status] is
    [sending] exactly one request is in flight, the submit button is
    disabled, and a submit gesture leaves the page as it is - the handler is
    not called, nothing is parked and no network call goes out. *)
Theorem no_submit_gesture_while_sending (evs : list (Event Num)) :
  let c := run_events_ (initial_page Num) evs in
  (parked c <> [] -> status (view c) = StSending)
  /\ (status (view c) = StSending ->
      (exists k, parked c = [k])
      /\ submit_disabled (view c) = true
      /\ button_disabled (render (view c)) = true
      /\ step_ c SubmitGesture = c
      /\ parked (step_ c SubmitGesture) = parked c
      /\ wire (step_ c SubmitGesture) = wire c).
Proof.
  intro c.
  destruct (run_events_keeps_invariant evs initial_page_invariant)
    as [[[Hp Hne] | (k & Hp & _ & Hsend & _)] _].
  - fold c in Hp, Hne. split; [congruence | intro Hs; congruence].
  - fold c in Hp, Hsend. split; [intros _; exact Hsend | intro Hs].
    assert (Hd : submit_disabled (view c) = true)
      by (unfold submit_disabled; now rewrite Hs).
    assert (E : step_ c SubmitGesture = c) by (unfold step; now rewrite Hd).
    split; [eauto | ]. split; [exact Hd | ]. split; [exact Hd | ].
    rewrite E. auto.
Qed.

(** ** The endpoint *)

Local Notation "'outcome_of_'" := (@outcome_of Num num_truthy).

(** X11.  The handler answers 200, 400 or 500 and nothing else.  A 200
    carries [ok: true] and no [error], after exactly one insert and without
    a line on the error console; a 400 carries the fixed message, with no
    insert and no console line; a 500 carries an [error] that is a text,
    after exactly one console line and at most one insert. *)
Theorem POST_answers_200_400_or_500 (env : Backend Num) :
  exists r log,
    handle_ env = (Returned r, log)
    /\ ((response_status r = 200
         /\ member (response_body r) (lit "ok") = JBool true
         /\ member (response_body r) (lit "error") = JUndefined
         /\ filter (@logs_console_error Num) log = []
         /\ List.length (filter (@is_insert Num) log) = 1%nat)
        \/ (response_status r = 400
            /\ member (response_body r) (lit "error")
               = JString (lit "Missing name or email")
            /\ filter (@logs_console_error Num) log = []
            /\ filter (@is_insert Num) log = [])
        \/ (response_status r = 500
            /\ (exists text, member (response_body r) (lit "error") = JString text)
            /\ List.length (filter (@logs_console_error Num) log) = 1%nat
            /\ (List.length (filter (@is_insert Num) log) <= 1)%nat)).
Proof.
  rewrite handle_outcome. unfold outcome_of.
  destruct (parsed_body env) as [body | e].
  - destruct (missing_name_or_email num_truthy body).
    + do 2 eexists. split; [reflexivity | ].
      right; left. repeat split.
    + destruct (collaborator env _ _) as [ir | e].
      * destruct (insert_error ir) as [err | ].
        -- do 2 eexists. split; [reflexivity | ].
           right; right. simpl. repeat split; eauto.
        -- do 2 eexists. split; [reflexivity | ].
           left. repeat split.
      * do 2 eexists. split; [reflexivity | ].
        right; right. simpl. repeat split; eauto.
  - do 2 eexists. split; [reflexivity | ].
    right; right. simpl. repeat split; eauto.
Qed.

(** X12.  A body that is not an object - [null], a number, a text, a
    boolean, an array - is answered 400 with the fixed message, like an
    object without [name] and [email]: thanks to [body ?? {}] the
    destructuring does not throw, and nothing is inserted or logged. *)
Theorem POST_body_that_is_no_object (env : Backend Num) (body : JsValue Num) :
  parsed_body env = Fulfilled body ->
  (forall fields, body <> JObject fields) ->
  handle_ env =
    (Returned (NextResponse_json
                 (JObject [ (lit "error", JString (lit "Missing name or email")) ]) 400),
     [RequestJson]).
Proof.
  intros Hb Hno. rewrite handle_outcome. unfold outcome_of. rewrite Hb.
  assert (E : missing_name_or_email num_truthy body = true).
  { destruct body; try reflexivity. exfalso. now apply (Hno l). }
  now rewrite E.
Qed.

(** ** The page and the endpoint together *)

Lemma inserted_record_of_request (st : FormState) :
  inserted_record (encoded (body (@subscribe_init Num st)))
  = encoded (body (subscribe_init st)).
Proof. reflexivity. Qed.

Lemma request_has_name_and_email (st : FormState) :
  first_failure st = None ->
  missing_name_or_email num_truthy (encoded (body (@subscribe_init Num st))) = false.
Proof.
  intro H. apply first_failure_None in H as (Hn & He & _).
  destruct (validateEmail_nonempty_trim _ He) as [Ht Hne].
  unfold missing_name_or_email.
  change (body_field (encoded (body (@subscribe_init Num st))) (lit "name"))
    with (@JString Num (trim (name st))).
  change (body_field (encoded (body (@subscribe_init Num st))) (lit "email"))
    with (@JString Num (trim (email st))).
  simpl. now rewrite Hn, Ht, Hne.
Qed.

Lemma shown_server_text (j : JsValue Num) (text : str) :
  optional_member j (lit "error") = JString text ->
  exception_message (server_error num_truthy num_text type_error_text j)
  = str_or text (lit "Server error").
Proof.
  intro E. unfold server_error, new_Error, js_or. rewrite E.
  destruct text as [ | c t]; reflexivity.
Qed.

(** X13.  The form and the endpoint, one after the other.  The request of
    a form that passed validation is never answered 400 by the handler, and
    the one record inserted is the trimmed triple the form sent.  When the
    handler's response reaches the page, the run ends in [success] with
    empty fields if the collaborator reported no error; it ends in [error]
    with the fields kept, showing the collaborator's message ("Server
    error" if that message is empty) if the collaborator reported one, and
    the exception's message ("Unknown error" if it is empty) if the insert
    threw. *)
Theorem form_and_endpoint_together
        (net : str -> RequestInit Num -> Settled (Response Num))
        (collab : str -> list (JsValue Num) -> Settled (InsertResult Num))
        (st : FormState) (res : Response Num) :
  first_failure st = None ->
  exists r log,
    handle_ (backend_for st collab) = (Returned r, log)
    /\ response_status r <> 400
    /\ filter (@is_insert Num) log
       = [Insert (lit "early_access") [encoded (body (subscribe_init st))]]
    /\ (answer_to net st = Fulfilled res -> delivered r res ->
        final_state (submit_ net st) =
          match collab (lit "early_access") [encoded (body (subscribe_init st))] with
          | Fulfilled ir =>
              match insert_error ir with
              | None =>
                  {| name := []; email := []; phone := [];
                     status := StSuccess; error := None |}
              | Some e =>
                  {| name := name st; email := email st; phone := phone st;
                     status := StError;
                     error := Some (str_or (message e) (lit "Server error")) |}
              end
          | Rejected e =>
              {| name := name st; email := email st; phone := phone st;
                 status := StError;
                 error := Some (str_or (message e) (lit "Unknown error")) |}
          end).
Proof.
  intro H. rewrite handle_outcome. unfold outcome_of, backend_for.
  cbv beta iota delta [parsed_body collaborator].
  rewrite (request_has_name_and_email st H), inserted_record_of_request.
  rewrite (submit_valid num_truthy num_text type_error_text net st H).
  unfold final_state, after_answer, raised, delivered.
  destruct (collab _ _) as [ir | e].
  - destruct (insert_error ir) as [err | ].
    + do 2 eexists. split; [reflexivity | ].
      split; [simpl; discriminate | ]. split; [reflexivity | ].
      intros -> (Hok & j & Hj & Herr). rewrite Hj, Hok. simpl.
      simpl in Herr. rewrite (shown_server_text j Herr).
      destruct (message err); reflexivity.
    + do 2 eexists. split; [reflexivity | ].
      split; [simpl; discriminate | ]. split; [reflexivity | ].
      intros -> (Hok & j & Hj & _). rewrite Hj, Hok. reflexivity.
  - do 2 eexists. split; [reflexivity | ].
    split; [simpl; discriminate | ]. split; [reflexivity | ].
    intros -> (Hok & j & Hj & Herr). rewrite Hj, Hok. simpl.
    change (member _ _) with (@JString Num (str_or (message e) (lit "Unknown error")))
      in Herr.
    rewrite (shown_server_text j Herr).
    unfold str_or. destruct (message e) as [ | c m]; reflexivity.
Qed.

End Further.


(** ** Concrete runs of the further properties *)

Lemma sample_form_sent_values :
  first_failure sample_form = None
  /\ trim (email sample_form) = email sample_form
  /\ network_calls
       (effects (submit int_truthy int_text v8_type_error net_accepts
                        (trimmed sample_form)))
     = network_calls
         (effects (submit int_truthy int_text v8_type_error net_accepts sample_form)).
Proof.
  split; [reflexivity | ].
  destruct (@sent_values_are_normalised safe_int int_truthy int_text v8_type_error
              net_accepts sample_form eq_refl)
    as (_ & _ & _ & He & _ & _ & _ & Hn).
  split; [exact He | exact Hn].
Defined.

Lemma sample_form_retry :
  first_failure sample_form = None
  /\ status (final_state (submit int_truthy int_text v8_type_error
                                 net_refuses sample_form)) = StError
  /\ network_calls
       (effects (submit int_truthy int_text v8_type_error net_accepts
                   (final_state (submit int_truthy int_text v8_type_error
                                        net_refuses sample_form))))
     = [subscribe_request sample_form].
Proof.
  split; [reflexivity | ]. split; [reflexivity | ].
  destruct (@retry_sends_the_same_request safe_int int_truthy int_text v8_type_error
              net_refuses net_accepts sample_form eq_refl eq_refl) as [H1 H2].
  now rewrite H1, H2.
Defined.

Lemma sample_form_resubmit :
  first_failure sample_form = None
  /\ status (final_state (submit int_truthy int_text v8_type_error
                                 net_accepts sample_form)) = StSuccess
  /\ network_calls
       (effects (submit int_truthy int_text v8_type_error net_accepts
                   (final_state (submit int_truthy int_text v8_type_error
                                        net_accepts sample_form))))
     = [].
Proof.
  split; [reflexivity | ]. split; [reflexivity | ].
  exact (proj1 (proj2 (@resubmit_after_success safe_int int_truthy int_text v8_type_error
                         net_accepts net_accepts sample_form eq_refl eq_refl))).
Defined.

Lemma typed_and_submitted_then_answered :
  let evs := [ Change FieldName (lit "Ada");
               Change FieldEmail (lit "ada@example.com");
               Change FieldPhone (lit "1234567");
               SubmitGesture;
               Change FieldName (lit "Ada L.") ] in
  let c := run_events int_truthy int_text v8_type_error (initial_page safe_int) evs in
  let c' := step int_truthy int_text v8_type_error c
                 (NetworkAnswer (net_accepts [] (subscribe_init (view c)))) in
  parked c <> [] /\ parked c' = [] /\ wire c' = wire c.
Proof.
  intros evs c c'.
  assert (Hne : parked c <> []) by (intro H; vm_compute in H; discriminate H).
  split; [exact Hne | ].
  destruct (@answer_releases_the_form safe_int int_truthy int_text v8_type_error evs
              (net_accepts [] (subscribe_init (view c))) Hne) as (Hp & Hw & _).
  split; [exact Hp | exact Hw].
Defined.

Lemma post_null_body :
  let env := {| parsed_body := Fulfilled (@JNull safe_int); collaborator := minimal_insert |} in
  (forall fields, @JNull safe_int <> JObject fields)
  /\ handle int_truthy env =
       (Returned (NextResponse_json
                    (JObject [ (lit "error", JString (lit "Missing name or email")) ])
                    400),
        [RequestJson]).
Proof.
  intro env.
  assert (Hno : forall fields, @JNull safe_int <> JObject fields) by (intros fields H; discriminate H).
  split; [exact Hno | ].
  exact (@POST_body_that_is_no_object safe_int int_truthy env JNull eq_refl Hno).
Defined.

Lemma sample_form_reaches_the_table :
  first_failure sample_form = None
  /\ exists r log,
       handle int_truthy (backend_for sample_form minimal_insert) = (Returned r, log)
       /\ response_status r <> 400
       /\ filter (@is_insert safe_int) log
          = [Insert (lit "early_access") [encoded (body (subscribe_init sample_form))]].
Proof.
  split; [reflexivity | ].
  destruct (@form_and_endpoint_together safe_int int_truthy int_text v8_type_error
              net_accepts minimal_insert sample_form
              {| ok := true; json := Fulfilled JNull |} eq_refl)
    as (r & log & Hrun & Hst & Hins & _).
  exists r, log. split; [exact Hrun | ]. split; [exact Hst | exact Hins].
Defined.

Lemma typed_and_submitted_twice :
  let evs := [ Change FieldName (lit "Ada");
               Change FieldEmail (lit "ada@example.com");
               Change FieldPhone (lit "1234567");
               SubmitGesture ] in
  let c := run_events int_truthy int_text v8_type_error (initial_page safe_int) evs in
  status (view c) = StSending
  /\ step int_truthy int_text v8_type_error c SubmitGesture = c
  /\ wire (step int_truthy int_text v8_type_error c SubmitGesture) = wire c.
Proof.
  intros evs c.
  assert (Hs : status (view c) = StSending) by (vm_compute; reflexivity).
  split; [exact Hs | ].
  destruct (proj2 (@no_submit_gesture_while_sending safe_int int_truthy int_text
                     v8_type_error evs) Hs) as (_ & _ & _ & Hstep & _ & Hwire).
  split; [exact Hstep | exact Hwire].
Defined.
